(** * OKVIS: the timer registry and the keypoint reprojection error

    A shallow embedding of

    - the process-wide timer registry, [okvis::timing::Timing] and
      [okvis::timing::Timer] (the implementation file of [Timer.hpp]);
    - the declarations of [okvis::ceres::ReprojectionError]
      ([okvis_ceres/include/okvis/ceres/ReprojectionError.hpp]), together
      with a model, from the specification, of the parts of the error term
      whose implementation file is not part of the sources at hand; each
      such definition says so.

    Conventions.  A [size_t] is a [nat]: the code compares handles and reads
    [size()], it never does arithmetic on them, so the 64-bit wrap-around
    cannot be observed.  A [std::vector] is a [list]; the
    [std::string -> size_t] tag map is a [gmap string nat].  Code that
    throws returns an [outcome] or a sum.  A [double] is an element of a
    type with the arithmetic of the code ([Arithmetic]); what only moves and
    compares numbers is proved for every such type, the IEEE doubles of
    [PrimFloat] among them, and what needs the laws of a field is proved
    over the real numbers, which the doubles round.  Memory is a finite map
    from addresses, counted in doubles, to doubles. *)

From Stdlib Require Import Floats.PrimFloat Floats.FloatOps Floats.FloatAxioms
  Floats.SpecFloat.
From stdpp Require Import gmap strings list fin_maps sorting.
From Stdlib Require Import Reals Lra.

Set Default Proof Using "Type".

(* ===================================================================== *)
(** * Part I: [okvis::timing] *)
(* ===================================================================== *)

Module Timing.

(** [TimerException], defined by [OKVIS_DEFINE_EXCEPTION] in [Timer.hpp];
    the payload is the fixed part of the message. *)
Inductive TimerException : Type :=
  | TimerException_ (what : string).

(** What a call into the registry does: it returns a value and leaves the
    singleton in a new state, or it throws. *)
Inductive outcome (S A : Type) : Type :=
  | Return (a : A) (st : S)
  | Throw (e : TimerException).
Arguments Return {S A} a st.
Arguments Throw {S A} e.

Definition threw {S A} (o : outcome S A) : Prop :=
  match o with Throw _ => True | Return _ _ => False end.

Definition returned {S A} (o : outcome S A) : Prop :=
  match o with Return _ _ => True | Throw _ => False end.

(** The interface of [boost::accumulators::accumulator_set<double, ...>]
    that the registry uses, and of the clock.  [Timer.hpp], which fixes the
    feature list and the rolling window, is not among the sources, and
    neither are boost's numerics; the registry is parametric in them. *)
Class Accumulators (double acc ptime : Type) : Type := {
  acc_new : acc;                          (* TimerMapValue() *)
  acc_push : acc -> double -> acc;        (* m_acc(seconds) *)
  extract_sum : acc -> double;
  extract_mean : acc -> double;
  extract_count : acc -> nat;
  extract_variance : acc -> double;
  extract_min : acc -> double;
  extract_max : acc -> double;
  extract_rolling_mean : acc -> double;
  reciprocal : double -> double;          (* 1.0 / x *)
  not_a_date_time : ptime;                (* a default-constructed ptime *)
  elapsed_seconds : ptime -> ptime -> double
    (* (now - m_time).total_nanoseconds() * 1e-9 *)
}.

Section Registry.

Context {double acc ptime : Type} `{!Accumulators double acc ptime}.

(** [struct TimerMapValue { accumulator_set m_acc; }] *)
Record TimerMapValue : Type := mkTimerMapValue { m_acc : acc }.

(** The fields of the [Timing] singleton. *)
Record Timing : Type := mkTiming {
  m_timers : list TimerMapValue;
  m_tagMap : gmap string nat;
  m_maxTagLength : nat
}.

(** The fields of a [Timer]. *)
Record Timer : Type := mkTimer {
  m_time : ptime;
  m_timing : bool;
  m_handle : nat
}.

Abbreviation result A := (outcome Timing A).

(** [Timing::Timing()] (without [OKVIS_USE_HIGH_PERF_TIMER]). *)
Definition Timing_ctor : Timing :=
  {| m_timers := []; m_tagMap := ∅; m_maxTagLength := 0 |}.

(** Modelled from the spec: the [OKVIS_ASSERT_TRUE] macro of
    [okvis/assert_macros.hpp], which is not among the sources.  It throws
    the named exception when the condition is false ("fail immediately and
    loudly") and otherwise falls through to the rest of the body.  The
    message is an expression of its own, evaluated only on failure; when
    that expression throws, its exception is the one that propagates. *)
Definition OKVIS_ASSERT_TRUE {A} (condition : bool) (message : result string)
    (rest : result A) : result A :=
  if condition then rest
  else match message with
       | Return what _ => Throw (TimerException_ what)
       | Throw e => Throw e
       end.

(** A message that is a string literal (the numbers streamed after it are
    left out). *)
Definition literal (what : string) (t : Timing) : result string :=
  Return what t.

(** [Timing::getHandle(tag)]: look the tag up, register it when absent. *)
Definition getHandle (tag : string) (t : Timing) : result nat :=
  match m_tagMap t !! tag with
  | None =>
      let handle := length (m_timers t) in
      Return handle
        {| m_timers := m_timers t ++ [mkTimerMapValue acc_new];
           m_tagMap := <[tag := handle]> (m_tagMap t);
           m_maxTagLength := Nat.max (m_maxTagLength t) (String.length tag) |}
  | Some handle => Return handle t
  end.

(** The loop of [Timing::getTag]: the first entry whose value is the
    handle. *)
Fixpoint getTag_search (entries : list (string * nat)) (handle : nat)
    : bool * string :=
  match entries with
  | [] => (false, EmptyString)
  | (tag, h) :: rest =>
      if Nat.eqb h handle then (true, tag) else getTag_search rest handle
  end.

(** [Timing::getTag(handle)]. *)
Definition getTag (handle : nat) (t : Timing) : result string :=
  let '(found, tag) := getTag_search (map_to_list (m_tagMap t)) handle in
  OKVIS_ASSERT_TRUE found
    (literal "Unable to find the tag associated with handle " t)
    (Return tag t).

(** [Timing::addTime(handle, seconds)]: [m_timers[handle].m_acc(seconds)].
    The index is unchecked in the source; out of range is undefined there
    and leaves the vector alone here.  Every call comes from [Timer::stop],
    with the handle the constructor validated. *)
Definition addTime (handle : nat) (seconds : double) (t : Timing) : Timing :=
  {| m_timers :=
       alter (fun v => mkTimerMapValue (acc_push (m_acc v) seconds))
             handle (m_timers t);
     m_tagMap := m_tagMap t;
     m_maxTagLength := m_maxTagLength t |}.

(** The shape shared by the handle-based statistics queries: the range
    assertion, then the extraction from [m_timers[handle]]. *)
Definition query {A} (extract : acc -> A) (handle : nat) (t : Timing)
    : result A :=
  OKVIS_ASSERT_TRUE (Nat.ltb handle (length (m_timers t)))
    (literal "Handle is out of range: " t)
    (Return (extract (m_acc (nth handle (m_timers t)
                                 (mkTimerMapValue acc_new)))) t).

Definition getTotalSeconds := query extract_sum.
Definition getMeanSeconds := query extract_mean.
Definition getNumSamples := query extract_count.
Definition getVarianceSeconds := query extract_variance.
Definition getMinSeconds := query extract_min.
Definition getMaxSeconds := query extract_max.
Definition getHz := query (fun a => reciprocal (extract_rolling_mean a)).

(** [Timing::reset(handle)]. *)
Definition reset (handle : nat) (t : Timing) : result unit :=
  OKVIS_ASSERT_TRUE (Nat.ltb handle (length (m_timers t)))
    (literal "Handle is out of range: " t)
    (Return tt
       {| m_timers := <[handle := mkTimerMapValue acc_new]> (m_timers t);
          m_tagMap := m_tagMap t;
          m_maxTagLength := m_maxTagLength t |}).

(** The overloads that take a tag: [f(getHandle(tag))]. *)
Definition by_tag {A} (f : nat -> Timing -> result A) (tag : string)
    (t : Timing) : result A :=
  match getHandle tag t with
  | Return handle t' => f handle t'
  | Throw e => Throw e
  end.

Definition getTotalSeconds_tag := by_tag getTotalSeconds.
Definition getMeanSeconds_tag := by_tag getMeanSeconds.
Definition getNumSamples_tag := by_tag getNumSamples.
Definition getVarianceSeconds_tag := by_tag getVarianceSeconds.
Definition getMinSeconds_tag := by_tag getMinSeconds.
Definition getMaxSeconds_tag := by_tag getMaxSeconds.
Definition getHz_tag := by_tag getHz.
Definition reset_tag := by_tag reset.

(** ["The timer " + Timing::getTag(m_handle) + suffix] *)
Definition timer_message (tm : Timer) (suffix : string) (t : Timing)
    : result string :=
  match getTag (m_handle tm) t with
  | Return tag t' => Return ("The timer " ++ tag ++ suffix)%string t'
  | Throw e => Throw e
  end.

(** [Timer::start()]; [now] is what the clock reads. *)
Definition Timer_start (now : ptime) (tm : Timer) (t : Timing)
    : result Timer :=
  OKVIS_ASSERT_TRUE (negb (m_timing tm))
    (timer_message tm " is already running" t)
    (Return {| m_time := now; m_timing := true;
               m_handle := m_handle tm |} t).

(** [Timer::stop()]. *)
Definition Timer_stop (now : ptime) (tm : Timer) (t : Timing)
    : result Timer :=
  OKVIS_ASSERT_TRUE (m_timing tm)
    (timer_message tm " is not running" t)
    (Return {| m_time := m_time tm; m_timing := false;
               m_handle := m_handle tm |}
            (addTime (m_handle tm) (elapsed_seconds (m_time tm) now) t)).

Definition Timer_isTiming (tm : Timer) : bool := m_timing tm.

Definition Timer_discardTiming (tm : Timer) : Timer :=
  {| m_time := m_time tm; m_timing := false; m_handle := m_handle tm |}.

(** [Timer::Timer(size_t handle, bool constructStopped)]. *)
Definition Timer_ctor_handle (handle : nat) (constructStopped : bool)
    (now : ptime) (t : Timing) : result Timer :=
  let tm := {| m_time := not_a_date_time; m_timing := false;
               m_handle := handle |} in
  OKVIS_ASSERT_TRUE (Nat.ltb handle (length (m_timers t)))
    (literal "The handle is invalid. Handle: " t)
    (if constructStopped then Return tm t else Timer_start now tm t).

(** [Timer::Timer(std::string const& tag, bool constructStopped)]. *)
Definition Timer_ctor_tag (tag : string) (constructStopped : bool)
    (now : ptime) (t : Timing) : result Timer :=
  match getHandle tag t with
  | Return handle t' =>
      let tm := {| m_time := not_a_date_time; m_timing := false;
                   m_handle := handle |} in
      if constructStopped then Return tm t' else Timer_start now tm t'
  | Throw e => Throw e
  end.

(** [Timer::~Timer()]. *)
Definition Timer_dtor (now : ptime) (tm : Timer) (t : Timing) : result unit :=
  if Timer_isTiming tm then
    match Timer_stop now tm t with
    | Return _ t' => Return tt t'
    | Throw e => Throw e
    end
  else Return tt t.

(** [Timing::secondsToTimeString] and [Timing::print] format text; they
    change nothing in the registry and are left out. *)

(** ** The states a process can be in

    The singleton together with the [Timer] objects alive.  A step is one
    call of the public interface that returns; a call that throws leaves
    everything as it was.  The queries by handle and [getTag] change
    nothing and so take no step. *)
Definition world : Type := Timing * list Timer.

Inductive step : world -> world -> Prop :=
  | step_getHandle tag h t t' tms :
      getHandle tag t = Return h t' ->
      step (t, tms) (t', tms)
  | step_query_tag {A} (extract : acc -> A) tag a t t' tms :
      by_tag (query extract) tag t = Return a t' ->
      step (t, tms) (t', tms)
  | step_reset h t t' tms :
      reset h t = Return tt t' ->
      step (t, tms) (t', tms)
  | step_reset_tag tag t t' tms :
      reset_tag tag t = Return tt t' ->
      step (t, tms) (t', tms)
  | step_Timer_ctor_handle h stopped now tm t t' tms :
      Timer_ctor_handle h stopped now t = Return tm t' ->
      step (t, tms) (t', tm :: tms)
  | step_Timer_ctor_tag tag stopped now tm t t' tms :
      Timer_ctor_tag tag stopped now t = Return tm t' ->
      step (t, tms) (t', tm :: tms)
  | step_Timer_start i now tm tm' t t' tms :
      tms !! i = Some tm ->
      Timer_start now tm t = Return tm' t' ->
      step (t, tms) (t', <[i := tm']> tms)
  | step_Timer_stop i now tm tm' t t' tms :
      tms !! i = Some tm ->
      Timer_stop now tm t = Return tm' t' ->
      step (t, tms) (t', <[i := tm']> tms)
  | step_Timer_discardTiming i tm t tms :
      tms !! i = Some tm ->
      step (t, tms) (t, <[i := Timer_discardTiming tm]> tms)
  | step_Timer_dtor i now tm t t' tms :
      tms !! i = Some tm ->
      Timer_dtor now tm t = Return tt t' ->
      step (t, tms) (t', delete i tms).

Definition reachable (w : world) : Prop := rtc step (Timing_ctor, []) w.

(** The handles in use are exactly the indices of [m_timers]: every tag
    maps below [size()], no two tags share a handle, every index has its
    tag, and every live [Timer] holds a valid handle. *)
Record registry_ok (w : world) : Prop := {
  tags_in_range : forall tag h,
    m_tagMap w.1 !! tag = Some h -> h < length (m_timers w.1);
  tags_injective : forall tag1 tag2 h,
    m_tagMap w.1 !! tag1 = Some h -> m_tagMap w.1 !! tag2 = Some h ->
    tag1 = tag2;
  tags_onto : forall h,
    h < length (m_timers w.1) -> exists tag, m_tagMap w.1 !! tag = Some h;
  timers_in_range : forall tm,
    tm ∈ w.2 -> m_handle tm < length (m_timers w.1)
}.

End Registry.

Arguments TimerMapValue : clear implicits.
Arguments Timing : clear implicits.
Arguments Timer : clear implicits.
Arguments world : clear implicits.

(** An instance to run the registry on: seconds and clock readings are
    integers, an accumulator is the list of its samples, newest first. *)
#[export] Instance list_accumulators : Accumulators Z (list Z) Z := {|
  acc_new := [];
  acc_push := fun a x => x :: a;
  extract_sum := fun a => foldr Z.add 0%Z a;
  extract_mean := fun a => (foldr Z.add 0 a / Z.of_nat (length a))%Z;
  extract_count := fun a => length a;
  extract_variance := fun a =>
    (foldr Z.add 0 (map (fun x => x * x) a) / Z.of_nat (length a)
     - (foldr Z.add 0 a / Z.of_nat (length a)) ^ 2)%Z;
  extract_min := fun a => foldr Z.min 0%Z a;
  extract_max := fun a => foldr Z.max 0%Z a;
  extract_rolling_mean := fun a =>
    (foldr Z.add 0 (take 50 a) / Z.of_nat (length (take 50 a)))%Z;
  reciprocal := fun x => (1 / x)%Z;
  not_a_date_time := 0%Z;
  elapsed_seconds := fun began now => (now - began)%Z
|}.

(** A registry after [getHandle("detect")], a running
    [Timer("describe")] started at 10 and its [stop()] at 25. *)
Definition example_world : world (list Z) Z :=
  ({| m_timers := [mkTimerMapValue []; mkTimerMapValue [15%Z]];
      m_tagMap := <["describe" := 1]> (<["detect" := 0]> ∅);
      m_maxTagLength := 8 |},
   [{| m_time := 10%Z; m_timing := false; m_handle := 1 |}]).

End Timing.

(* ===================================================================== *)
(** * Part I, continued: the registry's bookkeeping and [Timing::print] *)
(* ===================================================================== *)

Module TimingPrint.
Import Timing.

(** The text formatting that [print] relies on.  [secondsToTimeString]
    goes through [fmod], casts of a [double] to [long] and [sprintf]; it
    and [sqrt] are taken as they come. *)
Class Formatting (double : Type) : Type := {
  secondsToTimeString : double -> string;
  sqrt_seconds : double -> double
}.

(** What a function hands to a [std::ostream], call by call. *)
Inductive stream_op : Type :=
  | put (s : string)          (* out << a string *)
  | put_size (n : nat)        (* out << a size_t *)
  | width (n : nat)           (* out.width(n) *)
  | setf_left                 (* out.setf(std::ios::left, adjustfield) *)
  | setf_right                (* out.setf(std::ios::right, adjustfield) *)
  | endl.                     (* out << std::endl *)

Definition tab : string := String (Ascii.ascii_of_nat 9) EmptyString.
Definition newline : string := String (Ascii.ascii_of_nat 10) EmptyString.

(** The order of [std::map<std::string, size_t>]: by key, bytes compared
    as unsigned. *)
Definition key_le (x y : string * nat) : Prop := String.leb x.1 y.1 = true.

#[export] Instance key_le_dec x y : Decision (key_le x y).
Proof. unfold key_le. apply _. Defined.

(** The tags that head the rows of a printed table: each is what is put
    right after the stream is set to left adjustment. *)
Fixpoint row_tags (ops : list stream_op) : list string :=
  match ops with
  | [] => []
  | setf_left :: rest =>
      match rest with
      | put tag :: _ => tag :: row_tags rest
      | _ => row_tags rest
      end
  | _ :: rest => row_tags rest
  end.

(** The number of lines ended by [std::endl]. *)
Fixpoint lines (ops : list stream_op) : nat :=
  match ops with
  | [] => 0
  | endl :: rest => S (lines rest)
  | _ :: rest => lines rest
  end.

Section Registry.

Context {double acc ptime : Type} `{!Accumulators double acc ptime}
  `{!Formatting double}.

(** Sequencing of calls that may throw. *)
Definition and_then {A B} (o : outcome (Timing acc) A)
    (k : A -> Timing acc -> outcome (Timing acc) B)
    : outcome (Timing acc) B :=
  match o with
  | Return a t => k a t
  | Throw e => Throw e
  end.

(** The body of the loop of [Timing::print(std::ostream&)], for the entry
    [(tag, i)] of the ordered map. *)
Definition print_row (entry : string * nat) (t : Timing acc)
    : outcome (Timing acc) (list stream_op) :=
  let '(tag, i) := entry in
  let start :=
    [width (m_maxTagLength t); setf_left; put tag; put tab;
     width 7; setf_right] in
  and_then (getNumSamples i t) (fun n t =>
  and_then (getNumSamples i t) (fun n' t =>
    if Nat.ltb 0 n' then
      and_then (getTotalSeconds i t) (fun total t =>
      and_then (getMeanSeconds i t) (fun meansec t =>
      and_then (getVarianceSeconds i t) (fun variance t =>
      and_then (getMinSeconds i t) (fun minsec t =>
      and_then (getMaxSeconds i t) (fun maxsec t =>
        Return
          (start
           ++ [put_size n; put tab;
               put (secondsToTimeString total); put tab;
               put "("; put (secondsToTimeString meansec); put " +- ";
               put (secondsToTimeString (sqrt_seconds variance));
               put (")" ++ tab)%string;
               put "["; put (secondsToTimeString minsec); put ",";
               put (secondsToTimeString maxsec); put "]";
               endl])
          t)))))
    else Return (start ++ [put_size n; put tab; endl]) t)).

Fixpoint print_rows (entries : list (string * nat)) (t : Timing acc)
    : outcome (Timing acc) (list stream_op) :=
  match entries with
  | [] => Return [] t
  | entry :: rest =>
      and_then (print_row entry t) (fun row t =>
      and_then (print_rows rest t) (fun rows t =>
        Return (row ++ rows) t))
  end.

(** [void Timing::print(std::ostream& out)]. *)
Definition print (t : Timing acc) : outcome (Timing acc) (list stream_op) :=
  let orderedMap := merge_sort key_le (map_to_list (m_tagMap t)) in
  and_then (print_rows orderedMap t) (fun rows t =>
    Return ([put ("SM Timing" ++ newline)%string;
             put ("-----------" ++ newline)%string] ++ rows) t).

(** Two states of the singleton with the same tags, the same longest tag
    length and as many timers. *)
Definition same_registry (t t' : Timing acc) : Prop :=
  m_tagMap t' = m_tagMap t
  /\ m_maxTagLength t' = m_maxTagLength t
  /\ length (m_timers t') = length (m_timers t).

(** The bookkeeping of the registry: as many tags as timers, and
    [m_maxTagLength] the length of the longest tag. *)
Record registry_tidy (t : Timing acc) : Prop := {
  tags_counted : size (m_tagMap t) = length (m_timers t);
  tags_bounded : forall tag h,
    m_tagMap t !! tag = Some h -> String.length tag <= m_maxTagLength t;
  longest_attained :
    m_maxTagLength t = 0
    \/ exists tag h, m_tagMap t !! tag = Some h
                     /\ String.length tag = m_maxTagLength t
}.

End Registry.

(** A formatting to run [print] on: seconds as decimal digits are not
    needed, a fixed text stands for each number. *)
#[export] Instance plain_formatting : Formatting Z := {|
  secondsToTimeString := fun _ => "00:00:00.000000"%string;
  sqrt_seconds := Z.sqrt
|}.

(** The example registry as it was right after [getHandle("detect")]. *)
Definition example_world_before : world (list Z) Z :=
  ({| m_timers := [mkTimerMapValue []];
      m_tagMap := <["detect" := 0]> ∅;
      m_maxTagLength := 6 |},
   []).

End TimingPrint.

(* ===================================================================== *)
(** * Part II: [okvis::ceres::ReprojectionError] *)
(* ===================================================================== *)

(** The arithmetic of [double] that the error term uses. *)
Class Arithmetic (D : Type) : Type := {
  d0 : D;
  d1 : D;
  dadd : D -> D -> D;
  dsub : D -> D -> D;
  dmul : D -> D -> D;
  ddiv : D -> D -> D;
  dsqrt : D -> D;
  dleb : D -> D -> bool;
  deqb : D -> D -> bool
}.

Declare Scope double_scope.
Delimit Scope double_scope with D.
Notation "x + y" := (dadd x y) : double_scope.
Notation "x - y" := (dsub x y) : double_scope.
Notation "x * y" := (dmul x y) : double_scope.
Notation "x / y" := (ddiv x y) : double_scope.
Notation "- x" := (dsub d0 x) : double_scope.
Notation "0" := d0 : double_scope.
Notation "1" := d1 : double_scope.
Notation "2" := (dadd d1 d1) : double_scope.
Notation "x <=? y" := (dleb x y) : double_scope.
Notation "x =? y" := (deqb x y) : double_scope.

(** IEEE 754 binary64, as the compiler gives it. *)
#[export] Instance ieee_arithmetic : Arithmetic float := {|
  d0 := 0%float;
  d1 := 1%float;
  dadd := PrimFloat.add;
  dsub := PrimFloat.sub;
  dmul := PrimFloat.mul;
  ddiv := PrimFloat.div;
  dsqrt := PrimFloat.sqrt;
  dleb := PrimFloat.leb;
  deqb := PrimFloat.eqb
|}.

(** The real numbers, which the doubles round. *)
#[export] Instance real_arithmetic : Arithmetic R := {|
  d0 := 0%R;
  d1 := 1%R;
  dadd := Rplus;
  dsub := Rminus;
  dmul := Rmult;
  ddiv := Rdiv;
  dsqrt := R_sqrt.sqrt;
  dleb := fun x y => if Rle_dec x y then true else false;
  deqb := fun x y => if Req_dec_T x y then true else false
|}.

(** ** What the solver library declares

    [::ceres::SizedCostFunction<kNumResiduals, Ns...>]: its constructor
    records the number of residuals and the sizes [Ns] of the parameter
    blocks, in order. *)
Module ceres.

Record CostFunction : Type := mkCostFunction {
  num_residuals_ : nat;
  parameter_block_sizes_ : list nat
}.

Definition SizedCostFunction (kNumResiduals : nat) (Ns : list nat)
    : CostFunction :=
  {| num_residuals_ := kNumResiduals; parameter_block_sizes_ := Ns |}.

Definition num_residuals (f : CostFunction) : nat := num_residuals_ f.
Definition parameter_block_sizes (f : CostFunction) : list nat :=
  parameter_block_sizes_ f.

End ceres.

Module ReprojectionError.

(** [std::out_of_range], thrown by [std::vector::at]. *)
Inductive out_of_range : Type := out_of_range_.

(** [OKVIS_DEFINE_EXCEPTION(Exception, std::runtime_error)] *)
Inductive Exception : Type := Exception_ (what : string).

(** [typedef ::ceres::SizedCostFunction<2, 7, 4, 7> base_t;] *)
Definition base_t : ceres.CostFunction := ceres.SizedCostFunction 2 [7; 4; 7].

(** [static const int kNumResiduals = 2;] *)
Definition kNumResiduals : nat := 2.

(** [size_t residualDim() const] *)
Definition residualDim : nat := kNumResiduals.

(** [size_t parameterBlocks() const] *)
Definition parameterBlocks : nat := length (ceres.parameter_block_sizes base_t).

(** [size_t parameterBlockDim(size_t parameterBlockId) const]:
    [base_t::parameter_block_sizes().at(parameterBlockId)]. *)
Definition parameterBlockDim (parameterBlockId : nat) : out_of_range + nat :=
  match ceres.parameter_block_sizes base_t !! parameterBlockId with
  | Some n => inr n
  | None => inl out_of_range_
  end.

(** [virtual std::string typeInfo() const] *)
Definition typeInfo : string := "ReprojectionError".

(** Modelled from the spec: the width of the minimal (tangent space)
    Jacobian of each block, 6 for a pose ("a 6-DoF tangent vector") and 3
    for the landmark; the parameterizations are not among the sources. *)
Definition minimal_block_sizes : list nat := [6; 3; 6].

Section Linear.

Context {D : Type} `{!Arithmetic D}.
Local Open Scope double_scope.

(** [Eigen::Vector2d], [Vector3d], [Vector4d] *)
Definition Vector2d : Type := D * D.
Definition Vector3d : Type := D * D * D.
Definition Vector4d : Type := D * D * D * D.

(** [Eigen::Matrix2d], which is [covariance_t]. *)
Record Matrix2d : Type := mkMatrix2d { m00 : D; m01 : D; m10 : D; m11 : D }.

(** A matrix of any other shape, by its entries (row, column). *)
Definition Matrix : Type := nat -> nat -> D.

Definition Zero : Matrix := fun _ _ => 0.

(** The matrix with the given rows. *)
Definition matrix_of_rows (rows : list (list D)) : Matrix :=
  fun i j => default 0 (rows !! i ≫= fun row => row !! j).

Definition Identity2 : Matrix2d := {| m00 := 1; m01 := 0; m10 := 0; m11 := 1 |}.



Definition mulv2 (A : Matrix2d) (v : Vector2d) : Vector2d :=
  (m00 A * v.1 + m01 A * v.2, m10 A * v.1 + m11 A * v.2).

Definition sub2 (u v : Vector2d) : Vector2d := (u.1 - v.1, u.2 - v.2).




(** [S * J] for a Jacobian [J] of two rows. *)
Definition whiten (S : Matrix2d) (J : Matrix) : Matrix :=
  fun i j =>
    match i with
    | O => m00 S * J 0%nat j + m01 S * J 1%nat j
    | _ => m10 S * J 0%nat j + m11 S * J 1%nat j
    end.

(** The sum of [f 0 .. f (n-1)]. *)
Fixpoint sum_upto (n : nat) (f : nat -> D) : D :=
  match n with
  | O => 0
  | S k => sum_upto k f + f k
  end.

(** [A * B] where [A] has [inner] columns. *)
Definition mmul (inner : nat) (A B : Matrix) : Matrix :=
  fun i j => sum_upto inner (fun k => A i k * B k j).

Definition negate (A : Matrix) : Matrix := fun i j => - A i j.

(** Modelled from the spec: a pose, "a rigid-body transform, represented as
    translation (3-vector) + unit quaternion"; the transformation class is
    not among the sources.  The quaternion is [(x, y, z, w)]; the order
    inside the seven numbers is a convention of this model. *)
Record Pose : Type := mkPose { q_ : Vector4d; r_ : Vector3d }.

(** Modelled from the spec: the rotation matrix of a unit quaternion. *)
Definition rotationMatrix (q : Vector4d) : Matrix :=
  let '(x, y, z, w) := q in
  matrix_of_rows
    [ [1 - 2 * (y * y + z * z); 2 * (x * y - z * w); 2 * (x * z + y * w)];
      [2 * (x * y + z * w); 1 - 2 * (x * x + z * z); 2 * (y * z - x * w)];
      [2 * (x * z - y * w); 2 * (y * z + x * w); 1 - 2 * (x * x + y * y)] ].

(** [C^T * u] *)
Definition mulT3 (C : Matrix) (u : Vector3d) : Vector3d :=
  let '(ux, uy, uz) := u in
  (C 0%nat 0%nat * ux + C 1%nat 0%nat * uy + C 2%nat 0%nat * uz,
   C 0%nat 1%nat * ux + C 1%nat 1%nat * uy + C 2%nat 1%nat * uz,
   C 0%nat 2%nat * ux + C 1%nat 2%nat * uy + C 2%nat 2%nat * uz).

(** Modelled from the spec: the "inverse rigid transform" of a homogeneous
    point, [C^T (p - r w)], with [w] kept. *)
Definition inverseTransform (T : Pose) (hp : Vector4d) : Vector4d :=
  let '(px, py, pz, pw) := hp in
  let '(rx, ry, rz) := r_ T in
  let '(x, y, z) :=
    mulT3 (rotationMatrix (q_ T)) (px - rx * pw, py - ry * pw, pz - rz * pw) in
  (x, y, z, pw).

(** Modelled from the spec: the point of space that a landmark in
    "homogeneous 4D" coordinates stands for, [(x / w, y / w, z / w)]. *)
Definition euclidean (hp : Vector4d) : Vector3d :=
  let '(x, y, z, w) := hp in (x / w, y / w, z / w).

(** Modelled from the spec: the depth of a point in the camera frame, its
    coordinate along the optical axis. *)
Definition depth (p : Vector3d) : D := p.2.


End Linear.

Arguments Vector2d : clear implicits.
Arguments Vector3d : clear implicits.
Arguments Vector4d : clear implicits.
Arguments Matrix2d : clear implicits.
Arguments Matrix : clear implicits.
Arguments Pose : clear implicits.

(** ** The camera *)

(** Modelled from the spec: the interface of [GEOMETRY_TYPE] that the error
    term is written against, [project] of the camera classes, which are not
    among the sources: "project(point_in_camera_frame) -> (pixel,
    jacobian_2x3, success_flag)", with a success indicator "that is false
    when the point's depth is non-positive". *)
Class CameraGeometry (D : Type) `{!Arithmetic D} (G : Type) : Type := {
  project : G -> Vector3d D -> Vector2d D * Matrix D * bool;
  project_behind : forall g p,
    (depth p <=? 0)%D = true -> (project g p).2 = false
}.

(** Modelled from the spec: the derivatives of the chain rule, for which the
    spec names "standard rigid-body derivative identities" without their
    closed forms, and [liftJacobian] of the parameterizations, which are not
    among the sources.  [pointJacobian i] is the derivative of the point in
    the camera frame by parameter block [i], three rows; [liftJacobian i] is
    the matrix that takes the Jacobian by block [i] to its minimal form. *)
Class ChainRule (D : Type) : Type := {
  pointJacobian : nat -> Pose D -> Vector4d D -> Pose D -> Matrix D;
  liftJacobian : nat -> Pose D -> Vector4d D -> Pose D -> Matrix D
}.

Section ErrorTerm.

Context {D : Type} `{!Arithmetic D} {G : Type} `{!CameraGeometry D G}
  `{!ChainRule D}.
Local Open Scope double_scope.

(** The fields of the class ([cameraId_] is the one the constructor hands
    to the base class).  A [std::shared_ptr] may be null. *)
Record ReprojectionError : Type := mkReprojectionError {
  cameraId_ : N;
  measurement_ : Vector2d D;
  cameraGeometry_ : option G;
  information_ : Matrix2d D;
  squareRootInformation_ : Matrix2d D;
  covariance_ : Matrix2d D
}.

(** [virtual void setMeasurement(const measurement_t&)] *)
Definition setMeasurement (measurement : Vector2d D) (e : ReprojectionError)
    : ReprojectionError :=
  {| cameraId_ := cameraId_ e;
     measurement_ := measurement;
     cameraGeometry_ := cameraGeometry_ e;
     information_ := information_ e;
     squareRootInformation_ := squareRootInformation_ e;
     covariance_ := covariance_ e |}.

(** [void setCameraGeometry(std::shared_ptr<const camera_geometry_t>)] *)
Definition setCameraGeometry (cameraGeometry : option G)
    (e : ReprojectionError) : ReprojectionError :=
  {| cameraId_ := cameraId_ e;
     measurement_ := measurement_ e;
     cameraGeometry_ := cameraGeometry;
     information_ := information_ e;
     squareRootInformation_ := squareRootInformation_ e;
     covariance_ := covariance_ e |}.


(** The getters. *)
Definition measurement (e : ReprojectionError) : Vector2d D := measurement_ e.

(** *** The computation of one evaluation *)

(** Modelled from the spec: step (1) of the algorithm, "transform the
    landmark from world frame into the camera's local frame using the
    camera pose (and extrinsics, if present) by an inverse rigid
    transform".  The camera takes "a 3D point expressed in the camera's
    local frame": the point that the transformed homogeneous landmark
    stands for, so that its depth is the depth of the landmark whatever the
    sign of the fourth coordinate. *)
Definition pointInCameraFrame (T_WS : Pose D) (hp_W : Vector4d D)
    (T_SC : Pose D) : Vector3d D :=
  euclidean (inverseTransform T_SC (inverseTransform T_WS hp_W)).


(** What one evaluation produces: the residual, and for each parameter
    block the Jacobian and the minimal Jacobian, of two rows each. *)
Record Evaluation : Type := mkEvaluation {
  residual : Vector2d D;
  jacobian : nat -> Matrix D;
  jacobianMinimal : nat -> Matrix D
}.

(** Modelled from the spec: the body of [EvaluateWithMinimalJacobians],
    which is in the implementation file, not among the sources.  The
    algorithm of the spec: "(1) transform the landmark from world frame
    into the camera's local frame [...]; (2) invoke Camera Geometry's
    project; if it reports failure, the residual is set to zero and all
    Jacobians to zero [...]; (3) compute raw residual = measurement pixel -
    projected pixel; (4) whiten: multiply the raw 2-vector and every
    Jacobian block by the precomputed square root of the information matrix
    [...]; (5) chain-rule the camera-frame-point-to-pixel Jacobian back
    through the rigid transforms to each parameter block"; the minimal
    Jacobians are "obtained by right-multiplying the full Jacobian by each
    pose block's liftJacobian". *)
Definition evaluate (e : ReprojectionError) (cam : G) (T_WS : Pose D)
    (hp_W : Vector4d D) (T_SC : Pose D) : Evaluation :=
  let '(kp, Jp, ok) := project cam (pointInCameraFrame T_WS hp_W T_SC) in
  if ok then
    let S := squareRootInformation_ e in
    let J := fun i =>
      whiten S (negate (mmul 3 Jp (pointJacobian i T_WS hp_W T_SC))) in
    {| residual := mulv2 S (sub2 (measurement_ e) kp);
       jacobian := J;
       jacobianMinimal := fun i =>
         mmul (default O (ceres.parameter_block_sizes base_t !! i))
              (J i) (liftJacobian i T_WS hp_W T_SC) |}
  else
    {| residual := (0, 0);
       jacobian := fun _ => Zero;
       jacobianMinimal := fun _ => Zero |}.

(** *** Memory *)

(** The value at an address; an address never written reads as zero (it is
    indeterminate in the code). *)
Definition load (h : gmap Z D) (a : Z) : D := default 0 (h !! a).

(** Modelled from the spec: a pose block of seven numbers and a landmark
    block of four, as the evaluation reads them. *)
Definition load_pose (h : gmap Z D) (p : Z) : Pose D :=
  {| q_ := (load h p, load h (p + 1)%Z, load h (p + 2)%Z, load h (p + 3)%Z);
     r_ := (load h (p + 4)%Z, load h (p + 5)%Z, load h (p + 6)%Z) |}.

Definition load_point (h : gmap Z D) (p : Z) : Vector4d D :=
  (load h p, load h (p + 1)%Z, load h (p + 2)%Z, load h (p + 3)%Z).

(** The addresses of an array of [n] doubles at [p]. *)
Definition range (p : Z) (n : nat) : list Z :=
  map (fun i => (p + Z.of_nat i)%Z) (seq 0 n).

(** The stores, in program order. *)
Definition apply_writes (ws : list (Z * D)) (h : gmap Z D) : gmap Z D :=
  foldl (fun h' w => <[w.1 := w.2]> h') h ws.

(** The last value a list of stores puts at an address, if any. *)
Fixpoint last_write (ws : list (Z * D)) (a : Z) : option D :=
  match ws with
  | [] => None
  | w :: rest =>
      match last_write rest a with
      | Some v => Some v
      | None => if decide (w.1 = a) then Some w.2 else None
      end
  end.

(** A Jacobian of [kNumResiduals] rows and [cols] columns, row-major. *)
Definition store_matrix (p : Z) (cols : nat) (J : Matrix D) : list (Z * D) :=
  flat_map
    (fun i => map (fun j => ((p + Z.of_nat (i * cols + j))%Z, J i j))
                  (seq 0 cols))
    (seq 0 kNumResiduals).

(** [double** jacobians]: null, or the three pointers [jacobians[0]],
    [jacobians[1]], [jacobians[2]], each of which may be null. *)
Definition pointers : Type := option (option Z * option Z * option Z).

(** [jacobians[i]], null also when [jacobians] is. *)
Definition pointer (ptrs : pointers) (i : nat) : option Z :=
  match ptrs with
  | None => None
  | Some (j0, j1, j2) =>
      match i with
      | 0%nat => j0
      | 1%nat => j1
      | 2%nat => j2
      | _ => None
      end
  end.

(** The array of [n] doubles at [p] holds zeros. *)
Definition block_is_zero (h : gmap Z D) (p : Z) (n : nat) : Prop :=
  forall k, (k < n)%nat -> h !! (p + Z.of_nat k)%Z = Some 0.

(** The blocks the caller asked for: index, address and width. *)
Definition requested (ptrs : pointers) (sizes : list nat)
    : list (nat * Z * nat) :=
  let block i (p : option Z) :=
    match p with
    | Some a => [(i, a, default O (sizes !! i))]
    | None => []
    end in
  match ptrs with
  | None => []
  | Some (j0, j1, j2) => block 0%nat j0 ++ block 1%nat j1 ++ block 2%nat j2
  end.

Definition store_blocks (ptrs : pointers) (sizes : list nat)
    (J : nat -> Matrix D) : list (Z * D) :=
  flat_map (fun '(i, a, n) => store_matrix a n (J i)) (requested ptrs sizes).

(** The addresses of the output buffers of a call. *)
Definition block_footprint (ptrs : pointers) (sizes : list nat) : list Z :=
  flat_map (fun '(_, a, n) => range a (kNumResiduals * n)) (requested ptrs sizes).

Definition footprint (residuals : Z) (jacobians jacobiansMinimal : pointers)
    : list Z :=
  range residuals kNumResiduals
  ++ block_footprint jacobians (ceres.parameter_block_sizes base_t)
  ++ block_footprint jacobiansMinimal minimal_block_sizes.

(** Modelled from the spec: the point a call hands to the camera, step (1)
    on the parameter arrays as the memory holds them: the pose, the landmark
    and the extrinsics, in the order of the block sizes of [base_t]. *)
Definition cameraFramePoint (parameters : Z * Z * Z) (h : gmap Z D)
    : Vector3d D :=
  pointInCameraFrame (load_pose h parameters.1.1)
                     (load_point h parameters.1.2)
                     (load_pose h parameters.2).

(** The object and the memory around it. *)
Record state : Type := mkState {
  this : ReprojectionError;
  memory : gmap Z D
}.

(** Modelled from the spec: the stores of one evaluation, the residual and
    then the Jacobians and the minimal Jacobians of the blocks the caller
    asked for, row-major. *)
Definition writes (ev : Evaluation) (residuals : Z)
    (jacobians jacobiansMinimal : pointers) : list (Z * D) :=
  [(residuals, (residual ev).1); ((residuals + 1)%Z, (residual ev).2)]
  ++ store_blocks jacobians (ceres.parameter_block_sizes base_t) (jacobian ev)
  ++ store_blocks jacobiansMinimal minimal_block_sizes (jacobianMinimal ev).

(** Modelled from the spec: [EvaluateWithMinimalJacobians], of which the
    header gives the signature, [virtual bool
    EvaluateWithMinimalJacobians(double const* const* parameters, double*
    residuals, double** jacobians, double** jacobiansMinimal) const], and
    the implementation file, which is not among the sources, the body.
    The call reads the three parameter arrays, computes [evaluate] and
    stores the result through the output pointers.  It returns [true] also
    when the projection fails ("a degenerate projection at evaluation time
    is not an error").  A null camera is dereferenced, which is undefined
    ([None]). *)
Definition EvaluateWithMinimalJacobians (parameters : Z * Z * Z)
    (residuals : Z) (jacobians jacobiansMinimal : pointers) (s : state)
    : option (bool * state) :=
  match cameraGeometry_ (this s) with
  | None => None
  | Some cam =>
      let ev := evaluate (this s) cam (load_pose (memory s) parameters.1.1)
                         (load_point (memory s) parameters.1.2)
                         (load_pose (memory s) parameters.2) in
      Some (true,
            {| this := this s;
               memory := apply_writes
                           (writes ev residuals jacobians jacobiansMinimal)
                           (memory s) |})
  end.

(** Modelled from the spec: [Evaluate], declared [virtual bool
    Evaluate(double const* const* parameters, double* residuals, double**
    jacobians) const] in the header, its body not among the sources: the
    same evaluation with no minimal Jacobian asked for. *)
Definition Evaluate (parameters : Z * Z * Z) (residuals : Z)
    (jacobians : pointers) (s : state) : option (bool * state) :=
  EvaluateWithMinimalJacobians parameters residuals jacobians None s.

End ErrorTerm.

Arguments ReprojectionError D G : clear implicits.
Arguments state D G : clear implicits.
Arguments Evaluation D : clear implicits.

(** ** The precondition on the information matrix, over the reals *)


Definition quadratic_form (A : Matrix2d R) (x y : R) : R :=
  (m00 A * x * x + (m01 A + m10 A) * x * y + m11 A * y * y)%R.


Definition positive_definite (A : Matrix2d R) : Prop :=
  forall x y, (x <> 0 \/ y <> 0)%R -> (0 < quadratic_form A x y)%R.

(** ** Instances to run the error term on *)

(** Modelled from the spec: the "pinhole+no-distortion" variant of the
    camera geometry; the camera classes are not among the sources.  The
    projection fails on non-positive depth. *)
Record PinholeCamera (D : Type) : Type := mkPinholeCamera {
  fu : D; fv : D; cu : D; cv : D
}.
Arguments fu {D} _.
Arguments fv {D} _.
Arguments cu {D} _.
Arguments cv {D} _.

Definition pinhole_project {D : Type} `{!Arithmetic D} (g : PinholeCamera D)
    (p : Vector3d D) : Vector2d D * Matrix D * bool :=
  (if depth p <=? 0 then ((0, 0), Zero, false)
   else
     let '(x, y, z) := p in
     ((fu g * (x / z) + cu g, fv g * (y / z) + cv g),
      matrix_of_rows [ [fu g / z; 0; - (fu g * x / (z * z))];
                       [0; fv g / z; - (fv g * y / (z * z))] ],
      true))%D.

Lemma pinhole_project_behind {D : Type} `{!Arithmetic D} (g : PinholeCamera D)
    (p : Vector3d D) :
  (depth p <=? 0)%D = true -> (pinhole_project g p).2 = false.
Proof. unfold pinhole_project. by intros ->. Qed.

#[export] Instance pinhole_geometry {D : Type} `{!Arithmetic D}
    : CameraGeometry D (PinholeCamera D) :=
  {| project := pinhole_project; project_behind := pinhole_project_behind |}.

(** A chain rule with all derivatives zero, to run the residual path. *)
#[export] Instance no_derivatives {D : Type} `{!Arithmetic D} : ChainRule D :=
  {| pointJacobian := fun _ _ _ _ => Zero;
     liftJacobian := fun _ _ _ _ => Zero |}.

(** An error term over the doubles: focal length 350, principal point
    (360, 240), measurement at the principal point, identity weighting. *)
Definition example_error : ReprojectionError float (PinholeCamera float) :=
  {| cameraId_ := 0%N;
     measurement_ := (360, 240)%float;
     cameraGeometry_ :=
       Some {| fu := 350; fv := 350; cu := 360; cv := 240 |}%float;
     information_ := Identity2;
     squareRootInformation_ := Identity2;
     covariance_ := Identity2 |}.




(** A memory with the identity pose at 0, a landmark at 10 and the
    identity extrinsics at 20. *)
Definition example_memory (landmark : Vector4d float) : gmap Z float :=
  let '(x, y, z, w) := landmark in
  let identity_pose (p : Z) : list (Z * float) :=
    [ (p, 0%float); (p + 1, 0%float); (p + 2, 0%float); (p + 3, 1%float);
      (p + 4, 0%float); (p + 5, 0%float); (p + 6, 0%float) ]%Z in
  list_to_map
    (identity_pose 0%Z
     ++ [ (10%Z, x); (11%Z, y); (12%Z, z); (13%Z, w) ]
     ++ identity_pose 20%Z).

(** The landmark [(-1, 0, -2)], behind the camera, in homogeneous
    coordinates with a negative fourth one, and a landmark two units in
    front of the camera and off the axis. *)
Definition example_state_behind_homogeneous
    : state float (PinholeCamera float) :=
  {| this := example_error; memory := example_memory (1, 0, 2, -1)%float |}.


(** The pointers of the example calls: parameters, residuals at 100, the
    Jacobians of the pose and the landmark at 200 and 220 (none for the
    extrinsics), the minimal Jacobian of the pose at 300. *)
Definition example_parameters : Z * Z * Z := (0, 10, 20)%Z.
Definition example_jacobians : pointers := Some (Some 200, Some 220, None)%Z.
Definition example_jacobiansMinimal : pointers := Some (Some 300, None, None)%Z.




End ReprojectionError.

(* ===================================================================== *)
(** * Facts about [okvis::timing] *)
(* ===================================================================== *)

Module TimingFacts.
Import Timing.

Section Registry.

Context {double acc ptime : Type} `{!Accumulators double acc ptime}.

Implicit Types (t : Timing acc) (tm : Timer ptime) (tms : list (Timer ptime))
  (w : world acc ptime).

(** *** The search loop of [getTag] *)

Lemma getTag_search_absent (entries : list (string * nat)) handle :
  (forall tag, (tag, handle) ∉ entries) ->
  getTag_search entries handle = (false, EmptyString).
Proof.
  induction entries as [|[tag h] rest IH]; intros Habs; simpl; [done|].
  destruct (Nat.eqb_spec h handle) as [->|Hne].
  - destruct (Habs tag). left.
  - apply IH. intros tag' Hin. apply (Habs tag'). by right.
Qed.

Lemma getTag_search_present (entries : list (string * nat)) handle tag :
  (tag, handle) ∈ entries ->
  exists tag', getTag_search entries handle = (true, tag')
               /\ (tag', handle) ∈ entries.
Proof.
  induction entries as [|[tag0 h] rest IH]; intros Hin; simpl.
  - by apply elem_of_nil in Hin.
  - destruct (Nat.eqb_spec h handle) as [->|Hne].
    + exists tag0. split; [done | left].
    + apply elem_of_cons in Hin as [[= _ Heq]|Hin]; [congruence|].
      destruct (IH Hin) as (tag' & Hs & Hin'). exists tag'.
      split; [done | by right].
Qed.

(** *** The assertion macro *)

Lemma assert_false_threw {A} (message : outcome (Timing acc) string)
    (rest : outcome (Timing acc) A) :
  threw (OKVIS_ASSERT_TRUE false message rest).
Proof. unfold OKVIS_ASSERT_TRUE. by destruct message. Qed.

Lemma assert_true_rest {A} (message : outcome (Timing acc) string)
    (rest : outcome (Timing acc) A) :
  OKVIS_ASSERT_TRUE true message rest = rest.
Proof. done. Qed.

Lemma assert_returned {A} cond (message : outcome (Timing acc) string)
    (rest : outcome (Timing acc) A) a t :
  OKVIS_ASSERT_TRUE cond message rest = Return a t ->
  cond = true /\ rest = Return a t.
Proof.
  unfold OKVIS_ASSERT_TRUE. destruct cond; [done|]. by destruct message.
Qed.

(** *** What the calls do to the shape of the registry *)

Lemma getHandle_returned tag t :
  exists h t', getHandle tag t = Return h t'.
Proof. unfold getHandle. destruct (m_tagMap t !! tag); eauto. Qed.

Lemma registry_ok_init : registry_ok ((Timing_ctor, []) : world acc ptime).
Proof.
  split; simpl.
  - intros tag h Hl. by rewrite lookup_empty in Hl.
  - intros tag1 tag2 h Hl. by rewrite lookup_empty in Hl.
  - intros h Hh. lia.
  - intros tm Hin. by apply elem_of_nil in Hin.
Qed.

Lemma registry_ok_shape t t' tms tms' :
  registry_ok (t, tms) ->
  length (m_timers t') = length (m_timers t) ->
  m_tagMap t' = m_tagMap t ->
  (forall tm, tm ∈ tms' -> m_handle tm < length (m_timers t)) ->
  registry_ok (t', tms').
Proof.
  intros [Hr Hi Ho Ht] Hlen Hmap Htms. simpl in *.
  split; simpl; rewrite ?Hlen, ?Hmap; eauto.
Qed.

Lemma registry_ok_getHandle tag h t t' tms :
  registry_ok (t, tms) ->
  getHandle tag t = Return h t' ->
  registry_ok (t', tms) /\ h < length (m_timers t').
Proof.
  intros Hok. pose proof Hok as [Hr Hi Ho Ht]. simpl in *.
  unfold getHandle.
  destruct (m_tagMap t !! tag) as [h0|] eqn:Htag; intros [= <- <-].
  { split; [done|]. eauto. }
  split; [split|]; simpl; rewrite ?length_app; simpl; [| | | |lia].
  - intros tag' h. rewrite lookup_insert. case_decide as Hd.
    + intros [= <-]. lia.
    + intros Hl. specialize (Hr _ _ Hl). lia.
  - intros tag1 tag2 h. rewrite !lookup_insert.
    repeat case_decide; subst; try done.
    + intros [= <-] Hl. specialize (Hr _ _ Hl). lia.
    + intros Hl [= <-]. specialize (Hr _ _ Hl). lia.
    + apply Hi.
  - intros h Hh.
    destruct (decide (h = length (m_timers t))) as [->|Hne].
    + exists tag. by rewrite lookup_insert_eq.
    + destruct (Ho h) as [tag' Hl]; [lia|]. exists tag'.
      rewrite lookup_insert_ne; [done|]. congruence.
  - intros tm Hin. specialize (Ht _ Hin). lia.
Qed.

Lemma query_returned_state {A} (extract : acc -> A) h a t t' :
  query extract h t = Return a t' -> t' = t /\ h < length (m_timers t).
Proof.
  unfold query. intros [Hc [= _ <-]]%assert_returned.
  split; [done|]. by apply Nat.ltb_lt.
Qed.

Lemma reset_returned_state h t t' :
  reset h t = Return tt t' ->
  length (m_timers t') = length (m_timers t) /\ m_tagMap t' = m_tagMap t.
Proof.
  unfold reset. intros [_ [= <-]]%assert_returned. simpl.
  by rewrite length_insert.
Qed.

Lemma addTime_shape h x t :
  length (m_timers (addTime h x t)) = length (m_timers t)
  /\ m_tagMap (addTime h x t) = m_tagMap t.
Proof. unfold addTime. simpl. by rewrite length_alter. Qed.

Lemma Timer_start_returned now tm tm' t t' :
  Timer_start now tm t = Return tm' t' ->
  t' = t /\ m_handle tm' = m_handle tm.
Proof. unfold Timer_start. by intros [_ [= <- <-]]%assert_returned. Qed.

Lemma Timer_stop_returned now tm tm' t t' :
  Timer_stop now tm t = Return tm' t' ->
  m_handle tm' = m_handle tm
  /\ length (m_timers t') = length (m_timers t)
  /\ m_tagMap t' = m_tagMap t.
Proof.
  unfold Timer_stop. intros [_ [= <- <-]]%assert_returned.
  split; [done|]. apply addTime_shape.
Qed.

Lemma elem_of_insert_inv tms i tm' tm :
  tm ∈ <[i := tm']> tms -> tm = tm' \/ tm ∈ tms.
Proof.
  intros [j Hj]%list_elem_of_lookup.
  destruct (decide (i = j)) as [->|Hne].
  - destruct (decide (j < length tms)).
    + rewrite list_lookup_insert_eq in Hj by done. left. congruence.
    + rewrite list_insert_ge in Hj by lia. right.
      apply list_elem_of_lookup. eauto.
  - rewrite list_lookup_insert_ne in Hj by done. right.
    apply list_elem_of_lookup. eauto.
Qed.

Lemma elem_of_delete_inv tms i tm :
  tm ∈ delete i tms -> tm ∈ tms.
Proof.
  intros Hin. eapply elem_of_sublist; [exact Hin|]. apply sublist_delete.
Qed.

(** *** The invariant *)

Lemma registry_ok_step w w' : step w w' -> registry_ok w -> registry_ok w'.
Proof.
  intros Hstep Hok. pose proof Hok as Hok0.
  destruct Hstep; destruct Hok0 as [Hr Hi Ho Ht]; simpl in *.
  - by eapply registry_ok_getHandle.
  - unfold by_tag in *.
    destruct (getHandle tag t) as [h t1|] eqn:Hg; [|done].
    match goal with H : query _ _ _ = _ |- _ =>
      apply query_returned_state in H as [-> _] end.
    by eapply registry_ok_getHandle.
  - match goal with H : reset _ _ = _ |- _ =>
      apply reset_returned_state in H as [Hl Hm] end.
    by eapply registry_ok_shape.
  - unfold reset_tag, by_tag in *.
    destruct (getHandle tag t) as [h t1|] eqn:Hg; [|done].
    eapply registry_ok_getHandle in Hg as [Hok1 _]; [|done].
    match goal with H : reset _ _ = _ |- _ =>
      apply reset_returned_state in H as [Hl Hm] end.
    eapply registry_ok_shape; [exact Hok1|done..|].
    by destruct Hok1.
  - unfold Timer_ctor_handle in *.
    match goal with H : OKVIS_ASSERT_TRUE _ _ _ = _ |- _ =>
      apply assert_returned in H as [Hlt%Nat.ltb_lt Hrest] end.
    assert (t' = t /\ m_handle tm = h) as [-> <-].
    { destruct stopped; [by injection Hrest as <- <-|].
      by apply Timer_start_returned in Hrest as [-> ->]. }
    eapply registry_ok_shape; [exact Hok|done..|].
    intros tm0 [->|Hin]%elem_of_cons; eauto.
  - unfold Timer_ctor_tag in *.
    destruct (getHandle tag t) as [h t1|] eqn:Hg; [|done].
    eapply registry_ok_getHandle in Hg as [Hok1 Hlt]; [|done].
    match goal with H : (if _ then _ else _) = _ |- _ => rename H into Hrest end.
    assert (t' = t1 /\ m_handle tm = h) as [-> <-].
    { destruct stopped; [by injection Hrest as <- <-|].
      by apply Timer_start_returned in Hrest as [-> ->]. }
    eapply registry_ok_shape; [exact Hok1|done..|].
    intros tm0 [->|Hin]%elem_of_cons; [done|]. by destruct Hok1; eauto.
  - match goal with H : Timer_start _ _ _ = _ |- _ =>
      apply Timer_start_returned in H as [-> Hh] end.
    eapply registry_ok_shape; [exact Hok|done..|].
    intros tm0 [->|Hin]%elem_of_insert_inv; [|by eauto].
    rewrite Hh. apply Ht. by eapply list_elem_of_lookup_2.
  - match goal with H : Timer_stop _ _ _ = _ |- _ =>
      apply Timer_stop_returned in H as (Hh & Hl & Hm) end.
    eapply registry_ok_shape; [exact Hok|done..|].
    intros tm0 [->|Hin]%elem_of_insert_inv; [|by eauto].
    rewrite Hh. apply Ht. by eapply list_elem_of_lookup_2.
  - eapply registry_ok_shape; [exact Hok|done..|].
    intros tm0 [->|Hin]%elem_of_insert_inv; [|by eauto].
    simpl. apply Ht. by eapply list_elem_of_lookup_2.
  - unfold Timer_dtor in *.
    assert (length (m_timers t') = length (m_timers t)
            /\ m_tagMap t' = m_tagMap t) as [Hl Hm].
    { destruct (Timer_isTiming tm); [|by simplify_eq].
      destruct (Timer_stop now tm t) as [tm1 t1|] eqn:Hs; [|done].
      apply Timer_stop_returned in Hs as (_ & ? & ?). by simplify_eq. }
    eapply registry_ok_shape; [exact Hok|done..|].
    intros tm0 Hin%elem_of_delete_inv. eauto.
Qed.

Lemma reachable_registry_ok w : reachable w -> registry_ok w.
Proof.
  unfold reachable. intros Hrtc.
  eapply (rtc_ind_r (fun w => registry_ok w)); [| |exact Hrtc].
  - apply registry_ok_init.
  - intros w1 w2 _ Hstep IH. by eapply registry_ok_step.
Qed.

(** On a registry in order, [getTag] finds the tag of every handle in
    range, and it is the tag that was registered under the handle. *)
Lemma getTag_valid w handle :
  registry_ok w -> handle < length (m_timers w.1) ->
  exists tag, getTag handle w.1 = Return tag w.1
              /\ m_tagMap w.1 !! tag = Some handle.
Proof.
  intros [_ _ Ho _] Hlt. destruct (Ho _ Hlt) as [tag Htag].
  apply elem_of_map_to_list in Htag.
  destruct (getTag_search_present _ _ _ Htag) as (tag' & Hs & Hin).
  exists tag'. unfold getTag. rewrite Hs. split; [done|].
  by apply elem_of_map_to_list.
Qed.

Lemma getTag_invalid w handle :
  registry_ok w -> length (m_timers w.1) <= handle ->
  threw (getTag handle w.1).
Proof.
  intros [Hr _ _ _] Hge. unfold getTag.
  rewrite getTag_search_absent; [apply assert_false_threw|].
  intros tag Hin%elem_of_map_to_list. specialize (Hr _ _ Hin). lia.
Qed.

Lemma query_invalid {A} (extract : acc -> A) t handle :
  length (m_timers t) <= handle -> threw (query extract handle t).
Proof.
  intros Hge. unfold query.
  replace (handle <? length (m_timers t)) with false
    by (symmetry; apply Nat.ltb_ge; lia).
  apply assert_false_threw.
Qed.

Lemma query_valid {A} (extract : acc -> A) t handle :
  handle < length (m_timers t) -> returned (query extract handle t).
Proof.
  intros Hlt. unfold query.
  by replace (handle <? length (m_timers t)) with true
    by (symmetry; apply Nat.ltb_lt; lia).
Qed.

(** C10.  In every state the process can reach, a handle that is not below
    the number of registered timers names no entry of the registry, and
    each lookup through it throws a [TimerException] instead of returning:
    [Timing::getTag], the statistics queries [getTotalSeconds],
    [getMeanSeconds], [getNumSamples], [getVarianceSeconds],
    [getMinSeconds], [getMaxSeconds] and [getHz], and the constructor
    [Timer(handle, constructStopped)]. *)
Theorem nonexistent_handle_throws w handle :
  reachable w ->
  length (m_timers w.1) <= handle ->
  threw (getTag handle w.1)
  /\ threw (getTotalSeconds handle w.1)
  /\ threw (getMeanSeconds handle w.1)
  /\ threw (getNumSamples handle w.1)
  /\ threw (getVarianceSeconds handle w.1)
  /\ threw (getMinSeconds handle w.1)
  /\ threw (getMaxSeconds handle w.1)
  /\ threw (getHz handle w.1)
  /\ (forall constructStopped now,
        threw (Timer_ctor_handle handle constructStopped now w.1)).
Proof.
  intros Hreach%reachable_registry_ok Hge.
  split; [by apply getTag_invalid|].
  repeat (split; [by apply query_invalid|]).
  intros constructStopped now. unfold Timer_ctor_handle.
  replace (handle <? length (m_timers w.1)) with false
    by (symmetry; apply Nat.ltb_ge; lia).
  apply assert_false_threw.
Qed.

End Registry.

Lemma example_world_reachable : reachable example_world.
Proof.
  unfold reachable, example_world.
  eapply rtc_l; [by eapply (step_getHandle "detect")|].
  eapply rtc_l; [by eapply (step_Timer_ctor_tag "describe" false 10%Z)|].
  eapply rtc_l; [by eapply (step_Timer_stop 0 25%Z)|].
  apply rtc_refl.
Qed.

Lemma nonexistent_handle_throws_witness :
  reachable example_world
  /\ length (m_timers example_world.1) <= 2
  /\ threw (getTag 2 example_world.1)
  /\ threw (getTotalSeconds 2 example_world.1)
  /\ threw (Timer_ctor_handle 2 true 0%Z example_world.1).
Proof.
  pose proof example_world_reachable as Hreach.
  assert (length (m_timers example_world.1) <= 2) as Hge by (simpl; lia).
  destruct (nonexistent_handle_throws example_world 2 Hreach Hge)
    as (Htag & Htotal & _ & _ & _ & _ & _ & _ & Hctor).
  exact (conj Hreach (conj Hge (conj Htag (conj Htotal (Hctor true 0%Z))))).
Defined.

End TimingFacts.

(* ===================================================================== *)
(** * More facts about [okvis::timing] *)
(* ===================================================================== *)

Module TimingMoreFacts.
Import Timing TimingPrint TimingFacts.

Section Registry.

Context {double acc ptime : Type} `{!Accumulators double acc ptime}.

Implicit Types (t : Timing acc) (tm : Timer ptime) (tms : list (Timer ptime))
  (w : world acc ptime).

(** *** [getHandle] and [getTag] *)

Lemma getHandle_lookup tag h t t' :
  getHandle tag t = Return h t' -> m_tagMap t' !! tag = Some h.
Proof.
  unfold getHandle. destruct (m_tagMap t !! tag) as [h0|] eqn:Htag.
  - by intros [= <- <-].
  - intros [= <- <-]. simpl. by rewrite lookup_insert_eq.
Qed.

Lemma getHandle_keeps tag h t t' tag0 h0 :
  getHandle tag t = Return h t' ->
  m_tagMap t !! tag0 = Some h0 -> m_tagMap t' !! tag0 = Some h0.
Proof.
  unfold getHandle. destruct (m_tagMap t !! tag) as [h1|] eqn:Htag.
  - by intros [= <- <-].
  - intros [= <- <-] Hl. simpl. rewrite lookup_insert_ne; [done|].
    congruence.
Qed.

Lemma getHandle_grows tag h t t' :
  getHandle tag t = Return h t' ->
  length (m_timers t) <= length (m_timers t').
Proof.
  unfold getHandle. destruct (m_tagMap t !! tag) as [h1|] eqn:Htag;
    intros [= <- <-]; simpl; rewrite ?length_app; simpl; lia.
Qed.

(** X1.  Asking for the handle of a tag twice gives the same handle, and
    the second call leaves the registry as the first left it. *)
Theorem getHandle_again tag h t t' :
  getHandle tag t = Return h t' -> getHandle tag t' = Return h t'.
Proof.
  intros Hl%getHandle_lookup. unfold getHandle. by rewrite Hl.
Qed.

(** X2.  The first [getHandle] of a tag that is not registered returns the
    number of timers there were, appends one timer with no samples and
    keeps the handle of every other tag. *)
Theorem getHandle_registers tag t :
  m_tagMap t !! tag = None ->
  exists t',
    getHandle tag t = Return (length (m_timers t)) t'
    /\ m_timers t' = m_timers t ++ [mkTimerMapValue acc_new]
    /\ m_tagMap t' !! tag = Some (length (m_timers t))
    /\ forall tag0, tag0 <> tag -> m_tagMap t' !! tag0 = m_tagMap t !! tag0.
Proof.
  intros Hnone. unfold getHandle. rewrite Hnone. eexists.
  split; [done|]. simpl. split; [done|].
  split; [by rewrite lookup_insert_eq|].
  intros tag0 Hne. by rewrite lookup_insert_ne.
Qed.

(** X3.  In every state the process can reach, [getTag] undoes
    [getHandle]: the tag of the handle that [getHandle(tag)] returns is
    [tag]. *)
Theorem getTag_getHandle w tag h t' :
  reachable w ->
  getHandle tag w.1 = Return h t' ->
  getTag h t' = Return tag t'.
Proof.
  intros Hok%reachable_registry_ok Hget. destruct w as [t tms].
  cbn [fst] in *.
  destruct (registry_ok_getHandle _ _ _ _ _ Hok Hget) as [Hok' Hlt].
  destruct (getTag_valid (t', tms) h Hok' Hlt) as (tag' & Htag & Hl').
  cbn [fst] in *. rewrite Htag. do 2 f_equal.
  destruct Hok' as [_ Hinj _ _]. cbn [fst] in Hinj.
  eapply Hinj; [exact Hl'|]. by eapply getHandle_lookup.
Qed.

(** X4.  In any state, when [getTag(handle)] returns a tag it has changed
    nothing, and [getHandle] of that tag returns [handle], again without
    a change. *)
Theorem getHandle_getTag t handle tag t' :
  getTag handle t = Return tag t' ->
  t' = t /\ getHandle tag t = Return handle t.
Proof.
  unfold getTag.
  destruct (getTag_search (map_to_list (m_tagMap t)) handle)
    as [found tag0] eqn:Hs.
  intros [-> [= -> <-]]%assert_returned. split; [done|].
  assert ((tag, handle) ∈ map_to_list (m_tagMap t)) as Hin.
  { revert Hs. generalize (map_to_list (m_tagMap t)).
    induction l as [|[tag1 h1] l IH]; simpl; [done|].
    destruct (Nat.eqb_spec h1 handle) as [->|Hne].
    - intros [= ->]. left.
    - intros Hs. right. by apply IH. }
  apply elem_of_map_to_list in Hin. unfold getHandle. by rewrite Hin.
Qed.

(** X5.  In every state the process can reach, [getTag] returns exactly
    for the handles below the number of timers. *)
Theorem getTag_returns_iff w handle :
  reachable w ->
  (returned (getTag handle w.1) <-> handle < length (m_timers w.1)).
Proof.
  intros Hok%reachable_registry_ok. split.
  - intros Hret. destruct (Nat.lt_ge_cases handle (length (m_timers w.1)))
      as [|Hge]; [done|].
    pose proof (getTag_invalid w handle Hok Hge) as Hthrew.
    by destruct (getTag handle w.1).
  - intros Hlt. by destruct (getTag_valid w handle Hok Hlt) as (tag & -> & _).
Qed.

(** *** What a step does to the registry *)

Lemma same_registry_refl t : same_registry t t.
Proof. done. Qed.

Lemma reset_same_registry h t t' :
  reset h t = Return tt t' -> same_registry t t'.
Proof.
  unfold reset. intros [_ [= <-]]%assert_returned.
  repeat split. simpl. by rewrite length_insert.
Qed.

Lemma addTime_same_registry h x t : same_registry t (addTime h x t).
Proof. repeat split. simpl. by rewrite length_alter. Qed.

Lemma Timer_stop_same_registry now tm tm' t t' :
  Timer_stop now tm t = Return tm' t' -> same_registry t t'.
Proof.
  unfold Timer_stop. intros [_ [= _ <-]]%assert_returned.
  apply addTime_same_registry.
Qed.

(** Every step is a [getHandle], or none, followed by a change that keeps
    the tags, the longest tag length and the number of timers. *)
Lemma step_cases w w' :
  step w w' ->
  exists t1,
    (t1 = w.1 \/ exists tag h, getHandle tag w.1 = Return h t1)
    /\ same_registry t1 w'.1.
Proof.
  intros Hstep. destruct Hstep; cbn [fst].
  - exists t'. split; [right; eauto|done].
  - unfold by_tag in *.
    destruct (getHandle tag t) as [h t1|] eqn:Hg; [|done].
    match goal with H : query _ _ _ = _ |- _ =>
      apply query_returned_state in H as [-> _] end.
    exists t1. split; [right; eauto|done].
  - exists t. split; [by left|]. by eapply reset_same_registry.
  - unfold reset_tag, by_tag in *.
    destruct (getHandle tag t) as [h t1|] eqn:Hg; [|done].
    exists t1. split; [right; eauto|]. by eapply reset_same_registry.
  - unfold Timer_ctor_handle in *.
    match goal with H : OKVIS_ASSERT_TRUE _ _ _ = _ |- _ =>
      apply assert_returned in H as [_ Hrest] end.
    exists t. split; [by left|].
    destruct stopped; [by injection Hrest as _ <-|].
    by apply Timer_start_returned in Hrest as [-> _].
  - unfold Timer_ctor_tag in *.
    destruct (getHandle tag t) as [h t1|] eqn:Hg; [|done].
    exists t1. split; [right; eauto|].
    match goal with H : (if _ then _ else _) = _ |- _ => rename H into Hrest end.
    destruct stopped; [by injection Hrest as _ <-|].
    by apply Timer_start_returned in Hrest as [-> _].
  - exists t. split; [by left|].
    match goal with H : Timer_start _ _ _ = _ |- _ =>
      by apply Timer_start_returned in H as [-> _] end.
  - exists t. split; [by left|]. by eapply Timer_stop_same_registry.
  - exists t. split; [by left|done].
  - exists t. split; [by left|]. unfold Timer_dtor in *.
    destruct (Timer_isTiming tm); [|by simplify_eq].
    destruct (Timer_stop now tm t) as [tm1 t1|] eqn:Hs; [|done].
    apply Timer_stop_same_registry in Hs. by simplify_eq.
Qed.

(** X6.  Whatever the process does afterwards, a registered tag keeps its
    handle and the number of timers does not go down. *)
Theorem handles_are_stable w w' tag h :
  rtc step w w' ->
  m_tagMap w.1 !! tag = Some h ->
  m_tagMap w'.1 !! tag = Some h
  /\ length (m_timers w.1) <= length (m_timers w'.1).
Proof.
  intros Hrtc. revert h. induction Hrtc as [w|w w1 w2 Hstep _ IH];
    intros h Hl; [done|].
  destruct (step_cases _ _ Hstep) as (t1 & Hfirst & Hmap & _ & Hlen).
  assert (m_tagMap t1 !! tag = Some h
          /\ length (m_timers w.1) <= length (m_timers t1)) as [Hl1 Hle].
  { destruct Hfirst as [->|(tag0 & h0 & Hget)]; [done|].
    split; [by eapply getHandle_keeps|by eapply getHandle_grows]. }
  rewrite <- Hmap in Hl1. destruct (IH _ Hl1) as [Hl2 Hle2].
  split; [done|]. lia.
Qed.

(** *** The bookkeeping *)

Lemma registry_tidy_init : registry_tidy (Timing_ctor : Timing acc).
Proof.
  split; simpl.
  - done.
  - intros tag h Hl. by rewrite lookup_empty in Hl.
  - by left.
Qed.

Lemma registry_tidy_getHandle tag h t t' :
  registry_tidy t -> getHandle tag t = Return h t' -> registry_tidy t'.
Proof.
  intros [Hsize Hbound Hmax]. unfold getHandle.
  destruct (m_tagMap t !! tag) as [h0|] eqn:Htag; intros [= <- <-];
    [done|].
  split; simpl.
  - rewrite map_size_insert_None, length_app by done. simpl. lia.
  - intros tag0 h0. rewrite lookup_insert. case_decide as Hd.
    + intros _. subst. lia.
    + intros Hl. specialize (Hbound _ _ Hl). lia.
  - right.
    destruct (Nat.max_spec (m_maxTagLength t) (String.length tag))
      as [[Hlt ->]|[Hge ->]].
    + exists tag, (length (m_timers t)). by rewrite lookup_insert_eq.
    + destruct Hmax as [Hzero|(tag0 & h0 & Hl & Hlen)].
      * exists tag, (length (m_timers t)). rewrite lookup_insert_eq.
        split; [done|]. lia.
      * exists tag0, h0. split; [|done].
        rewrite lookup_insert_ne; [done|]. congruence.
Qed.

Lemma registry_tidy_same t t' :
  registry_tidy t -> same_registry t t' -> registry_tidy t'.
Proof.
  intros [Hsize Hbound Hmax] (Hmap & Hlen & Htimers).
  split; rewrite ?Hmap, ?Hlen, ?Htimers; done.
Qed.

Lemma reachable_registry_tidy w : reachable w -> registry_tidy w.1.
Proof.
  unfold reachable. intros Hrtc.
  eapply (rtc_ind_r (fun w => registry_tidy w.1)); [| |exact Hrtc].
  - apply registry_tidy_init.
  - intros w1 w2 _ Hstep IH.
    destruct (step_cases _ _ Hstep) as (t1 & Hfirst & Hsame).
    eapply registry_tidy_same; [|exact Hsame].
    destruct Hfirst as [->|(tag & h & Hget)]; [done|].
    by eapply registry_tidy_getHandle.
Qed.

(** X7.  In every state the process can reach there are as many tags as
    timers, no registered tag is longer than [m_maxTagLength], and
    [m_maxTagLength] is the length of a registered tag unless it is 0. *)
Theorem registry_bookkeeping w :
  reachable w ->
  size (m_tagMap w.1) = length (m_timers w.1)
  /\ (forall tag h, m_tagMap w.1 !! tag = Some h ->
                    String.length tag <= m_maxTagLength w.1)
  /\ (m_maxTagLength w.1 = 0
      \/ exists tag h, m_tagMap w.1 !! tag = Some h
                       /\ String.length tag = m_maxTagLength w.1).
Proof. intros [H1 H2 H3]%reachable_registry_tidy. done. Qed.

(** *** Queries, timers and [reset] *)

(** X8.  In every state the process can reach, a statistics query by tag
    does not throw.  For a registered tag it reads the tag's timer and
    changes nothing; for a tag that is not registered it registers the tag
    and answers from a timer with no samples. *)
Theorem query_by_tag_returns {A} (extract : acc -> A) w tag :
  reachable w ->
  match m_tagMap w.1 !! tag with
  | Some h =>
      by_tag (query extract) tag w.1
      = Return (extract (m_acc (nth h (m_timers w.1)
                                    (mkTimerMapValue acc_new)))) w.1
  | None =>
      exists t',
        getHandle tag w.1 = Return (length (m_timers w.1)) t'
        /\ by_tag (query extract) tag w.1 = Return (extract acc_new) t'
  end.
Proof.
  intros [Hrange _ _ _]%reachable_registry_ok.
  destruct (m_tagMap w.1 !! tag) as [h|] eqn:Htag.
  - unfold by_tag, getHandle. rewrite Htag. unfold query.
    replace (h <? length (m_timers w.1)) with true; [done|].
    symmetry. apply Nat.ltb_lt. by eapply Hrange.
  - unfold by_tag, getHandle. rewrite Htag. eexists. split; [done|].
    unfold query. cbn [m_timers]. rewrite length_app. cbn [length].
    replace (length (m_timers w.1) <? length (m_timers w.1) + 1) with true
      by (symmetry; apply Nat.ltb_lt; lia).
    cbn [OKVIS_ASSERT_TRUE]. by rewrite nth_middle.
Qed.

(** X9.  Starting a stopped timer whose handle is in range and stopping
    it again both return; the registry then holds one more sample, the time
    between the two clock readings, in the accumulator of the timer's
    handle, and every other accumulator and the tags are as before.  (The
    handle is in range for every timer a constructor made; [addTime] does
    not check it, and past the end the source indexes the vector out of
    range.) *)
Theorem start_stop_records_sample now1 now2 tm t :
  m_timing tm = false ->
  m_handle tm < length (m_timers t) ->
  exists tm1 tm2 t2 v,
    Timer_start now1 tm t = Return tm1 t
    /\ Timer_stop now2 tm1 t = Return tm2 t2
    /\ m_timing tm1 = true
    /\ m_timing tm2 = false
    /\ m_handle tm2 = m_handle tm
    /\ m_tagMap t2 = m_tagMap t
    /\ length (m_timers t2) = length (m_timers t)
    /\ m_timers t !! m_handle tm = Some v
    /\ m_timers t2 !! m_handle tm
       = Some (mkTimerMapValue
                 (acc_push (m_acc v) (elapsed_seconds now1 now2)))
    /\ forall h, h <> m_handle tm -> m_timers t2 !! h = m_timers t !! h.
Proof.
  intros Hstopped [v Hv]%lookup_lt_is_Some.
  unfold Timer_start, Timer_stop. rewrite Hstopped.
  cbn [negb OKVIS_ASSERT_TRUE m_timing m_handle m_time].
  do 3 eexists. exists v. split; [done|]. split; [done|].
  repeat split; cbn [addTime m_timers].
  - apply length_alter.
  - exact Hv.
  - rewrite list_lookup_alter_eq. cbn [m_handle m_time]. by rewrite Hv.
  - intros h Hne. by apply list_lookup_alter_ne.
Qed.

(** X10.  In every state the process can reach, starting a live timer that
    is running and stopping one that is not both throw, and the message
    names the tag the timer was made for. *)
Theorem Timer_misuse_throws w tm now :
  reachable w -> tm ∈ w.2 ->
  exists tag,
    m_tagMap w.1 !! tag = Some (m_handle tm)
    /\ (m_timing tm = true ->
        Timer_start now tm w.1
        = Throw (TimerException_
                   ("The timer " ++ tag ++ " is already running")))
    /\ (m_timing tm = false ->
        Timer_stop now tm w.1
        = Throw (TimerException_
                   ("The timer " ++ tag ++ " is not running"))).
Proof.
  intros Hok%reachable_registry_ok Hin.
  pose proof (timers_in_range _ Hok _ Hin) as Hlt.
  destruct (getTag_valid w _ Hok Hlt) as (tag & Htag & Hl).
  exists tag. split; [done|].
  split; intros Hrun; unfold Timer_start, Timer_stop, timer_message;
    rewrite Hrun, Htag; done.
Qed.

(** X11.  The destructor of a timer whose handle is in range does not
    throw.  It keeps the tags and the number of timers and touches no
    accumulator but the one of its handle: a running timer is stopped, so
    that accumulator takes the time since the start as one more sample; a
    timer that is not running, and so one on which [discardTiming] was
    called, leaves the registry exactly as it is. *)
Theorem Timer_dtor_returns now tm t :
  m_handle tm < length (m_timers t) ->
  exists t' v,
    Timer_dtor now tm t = Return tt t'
    /\ same_registry t t'
    /\ m_timers t !! m_handle tm = Some v
    /\ (m_timing tm = true ->
        m_timers t' !! m_handle tm
        = Some (mkTimerMapValue
                  (acc_push (m_acc v) (elapsed_seconds (m_time tm) now))))
    /\ (m_timing tm = false -> t' = t)
    /\ (forall h, h <> m_handle tm -> m_timers t' !! h = m_timers t !! h)
    /\ Timer_isTiming (Timer_discardTiming tm) = false
    /\ Timer_dtor now (Timer_discardTiming tm) t = Return tt t.
Proof.
  intros [v Hv]%lookup_lt_is_Some.
  unfold Timer_dtor, Timer_isTiming, Timer_stop.
  destruct (m_timing tm) eqn:Hrun; cbn [OKVIS_ASSERT_TRUE]; eexists; exists v.
  - split; [done|]. split; [apply addTime_same_registry|].
    split; [exact Hv|]. cbn [addTime m_timers].
    split; [intros _; rewrite list_lookup_alter_eq; cbn [m_handle m_time];
            by rewrite Hv|].
    split; [done|].
    split; [intros h Hne; by apply list_lookup_alter_ne|done].
  - split; [done|]. split; [done|]. split; [exact Hv|].
    split; [done|]. by repeat split.
Qed.

(** X12.  [reset] of a handle in range returns; afterwards the timer of
    the handle has no samples and every query of it answers as a new
    timer does, and the other timers and the tags are as before. *)
Theorem reset_clears {A} (extract : acc -> A) handle t :
  handle < length (m_timers t) ->
  exists t',
    reset handle t = Return tt t'
    /\ m_tagMap t' = m_tagMap t
    /\ m_timers t' !! handle = Some (mkTimerMapValue acc_new)
    /\ (forall h, h <> handle -> m_timers t' !! h = m_timers t !! h)
    /\ query extract handle t' = Return (extract acc_new) t'.
Proof.
  intros Hlt. unfold reset.
  replace (handle <? length (m_timers t)) with true
    by (symmetry; by apply Nat.ltb_lt).
  eexists. split; [done|]. cbn [m_tagMap m_timers].
  split; [done|]. split; [by apply list_lookup_insert_eq|].
  split; [intros h Hne; by apply list_lookup_insert_ne|].
  unfold query. cbn [m_timers]. rewrite length_insert.
  replace (handle <? length (m_timers t)) with true
    by (symmetry; by apply Nat.ltb_lt).
  cbn [OKVIS_ASSERT_TRUE].
  by rewrite (nth_lookup_Some _ _ _ (mkTimerMapValue acc_new))
    by (by apply list_lookup_insert_eq).
Qed.

(** X14.  In any state, a statistics query by handle, [reset] and the
    constructor of a timer by handle return exactly when the handle is
    below the number of timers. *)
Theorem handle_calls_return_iff {A} (extract : acc -> A) handle
    constructStopped now t :
  (returned (query extract handle t) <-> handle < length (m_timers t))
  /\ (returned (reset handle t) <-> handle < length (m_timers t))
  /\ (returned (Timer_ctor_handle handle constructStopped now t)
      <-> handle < length (m_timers t)).
Proof.
  unfold query, reset, Timer_ctor_handle, Timer_start.
  destruct (Nat.ltb_spec handle (length (m_timers t))) as [Hlt|Hge].
  - cbn [OKVIS_ASSERT_TRUE m_timing negb].
    by destruct constructStopped.
  - cbn [OKVIS_ASSERT_TRUE literal returned].
    repeat split; (done || lia).
Qed.

(** X15.  In any state, the constructor of a timer by tag does not throw:
    it takes the handle that [getHandle] gives for the tag, registering
    the tag when it has to, and the timer runs unless it was to be
    constructed stopped. *)
Theorem Timer_ctor_tag_returns tag constructStopped now t :
  exists h tm t',
    getHandle tag t = Return h t'
    /\ Timer_ctor_tag tag constructStopped now t = Return tm t'
    /\ m_handle tm = h
    /\ m_timing tm = negb constructStopped.
Proof.
  destruct (getHandle_returned tag t) as (h & t' & Hget).
  unfold Timer_ctor_tag, Timer_start. rewrite Hget.
  exists h. destruct constructStopped; cbn [OKVIS_ASSERT_TRUE m_timing negb];
    by do 2 eexists.
Qed.

End Registry.

(** *** [print] *)

#[local] Instance key_le_total : Total key_le.
Proof. intros x y. apply String.leb_total. Qed.

Section Print.

Context {double acc ptime : Type} `{!Accumulators double acc ptime}
  `{!Formatting double}.

Implicit Types (t : Timing acc) (w : world acc ptime)
  (entries : list (string * nat)).

Lemma query_in_range {A} (extract : acc -> A) h t :
  h < length (m_timers t) ->
  query extract h t
  = Return (extract (m_acc (nth h (m_timers t) (mkTimerMapValue acc_new)))) t.
Proof.
  intros Hlt. unfold query.
  by replace (h <? length (m_timers t)) with true
    by (symmetry; by apply Nat.ltb_lt).
Qed.

(** A row of the table: it is written whenever the handle is in range,
    starts with the tag and ends the line. *)
Lemma print_row_in_range tag h t :
  h < length (m_timers t) ->
  exists row,
    print_row (tag, h) t = Return row t
    /\ forall rows,
         row_tags (row ++ rows) = tag :: row_tags rows
         /\ lines (row ++ rows) = S (lines rows).
Proof.
  intros Hlt. unfold print_row, getNumSamples, getTotalSeconds,
    getMeanSeconds, getVarianceSeconds, getMinSeconds, getMaxSeconds.
  repeat (rewrite query_in_range by done; cbn [and_then]).
  match goal with |- context [if ?b then _ else _] => destruct b end;
    repeat (rewrite query_in_range by done; cbn [and_then]);
    eexists; (split; [done|]); intros rows; by split.
Qed.

Lemma print_rows_in_range entries t :
  (forall tag h, (tag, h) ∈ entries -> h < length (m_timers t)) ->
  exists ops,
    print_rows entries t = Return ops t
    /\ row_tags ops = entries.*1
    /\ lines ops = length entries.
Proof.
  induction entries as [|[tag h] entries IH]; intros Hrange.
  - by exists [].
  - destruct (print_row_in_range tag h t) as (row & Hrow & Hshape);
      [apply (Hrange tag); left|].
    destruct IH as (ops & Hops & Htags & Hlines);
      [intros tag' h' Hin; apply (Hrange tag'); by right|].
    exists (row ++ ops). cbn [print_rows]. rewrite Hrow. cbn [and_then].
    rewrite Hops. cbn [and_then]. split; [done|].
    destruct (Hshape ops) as [-> ->]. by rewrite Htags, Hlines.
Qed.

(** X13.  In every state the process can reach, [print] does not throw
    and changes nothing.  The table has one line for each timer, and the
    tags that head its rows are the registered tags, each once, in
    ascending order. *)
Theorem print_lists_tags w :
  reachable w ->
  exists ops,
    print w.1 = Return ops w.1
    /\ Sorted (fun a b => String.leb a b = true) (row_tags ops)
    /\ row_tags ops ≡ₚ (map_to_list (m_tagMap w.1)).*1
    /\ lines ops = length (m_timers w.1).
Proof.
  intros Hreach.
  pose proof (reachable_registry_ok _ Hreach) as [Hrange _ _ _].
  pose proof (reachable_registry_tidy _ Hreach) as [Hsize _ _].
  unfold print.
  destruct (print_rows_in_range
              (merge_sort key_le (map_to_list (m_tagMap w.1))) w.1)
    as (ops & Hops & Htags & Hlines).
  { intros tag h Hin. apply (Hrange tag).
    apply elem_of_map_to_list.
    by rewrite <- (merge_sort_Permutation key_le). }
  rewrite Hops. cbn [and_then]. eexists. split; [done|].
  cbn [app row_tags lines]. rewrite Htags, Hlines.
  split; [|split].
  - apply (Sorted_fmap _ key_le); [done|]. apply Sorted_merge_sort, _.
  - by rewrite merge_sort_Permutation.
  - rewrite <- Hsize, <- length_map_to_list.
    by rewrite merge_sort_Permutation.
Qed.

End Print.

(** *** The theorems at the example registry *)

Lemma getHandle_again_witness :
  getHandle "describe" example_world.1 = Return 1 example_world.1.
Proof.
  apply (getHandle_again "describe" 1 example_world.1 example_world.1).
  vm_compute. reflexivity.
Defined.

Lemma getHandle_registers_witness :
  exists t',
    getHandle "match" example_world.1 = Return 2 t'
    /\ m_tagMap t' !! "match" = Some 2.
Proof.
  assert (m_tagMap example_world.1 !! "match" = None) as Hnone
    by (vm_compute; reflexivity).
  destruct (getHandle_registers "match" example_world.1 Hnone)
    as (t' & Hget & _ & Hl & _).
  exists t'. exact (conj Hget Hl).
Defined.

Lemma getTag_getHandle_witness :
  getTag 1 example_world.1 = Return "describe" example_world.1.
Proof.
  apply (getTag_getHandle example_world "describe" 1 example_world.1
           example_world_reachable).
  vm_compute. reflexivity.
Defined.

Lemma getHandle_getTag_witness :
  getHandle "detect" example_world.1 = Return 0 example_world.1.
Proof.
  assert (getTag 0 example_world.1 = Return "detect" example_world.1)
    as Htag by (vm_compute; reflexivity).
  exact (proj2 (getHandle_getTag example_world.1 0 "detect"
                  example_world.1 Htag)).
Defined.

Lemma getTag_returns_iff_witness :
  returned (getTag 1 example_world.1)
  <-> 1 < length (m_timers example_world.1).
Proof.
  exact (getTag_returns_iff example_world 1 example_world_reachable).
Defined.

Lemma example_world_before_steps : rtc step example_world_before example_world.
Proof.
  unfold example_world_before, example_world.
  eapply rtc_l; [by eapply (step_Timer_ctor_tag "describe" false 10%Z)|].
  eapply rtc_l; [by eapply (step_Timer_stop 0 25%Z)|].
  apply rtc_refl.
Qed.

Lemma handles_are_stable_witness :
  m_tagMap example_world.1 !! "detect" = Some 0
  /\ length (m_timers example_world_before.1)
     <= length (m_timers example_world.1).
Proof.
  apply (handles_are_stable example_world_before example_world "detect" 0
           example_world_before_steps).
  vm_compute. reflexivity.
Defined.

Lemma registry_bookkeeping_witness :
  size (m_tagMap example_world.1) = length (m_timers example_world.1).
Proof.
  exact (proj1 (registry_bookkeeping example_world example_world_reachable)).
Defined.

Lemma query_by_tag_returns_witness :
  match m_tagMap example_world.1 !! "match" with
  | Some h =>
      by_tag (query extract_count) "match" example_world.1
      = Return (extract_count
                  (m_acc (nth h (m_timers example_world.1)
                              (mkTimerMapValue acc_new))))
               example_world.1
  | None =>
      exists t',
        getHandle "match" example_world.1
        = Return (length (m_timers example_world.1)) t'
        /\ by_tag (query extract_count) "match" example_world.1
           = Return (extract_count acc_new) t'
  end.
Proof.
  exact (query_by_tag_returns extract_count example_world "match"
           example_world_reachable).
Defined.

Lemma start_stop_records_sample_witness :
  exists tm1 tm2 t2,
    Timer_start 30%Z {| m_time := 10%Z; m_timing := false; m_handle := 1 |}
      example_world.1 = Return tm1 example_world.1
    /\ Timer_stop 37%Z tm1 example_world.1 = Return tm2 t2
    /\ m_timers example_world.1 !! 1 = Some (mkTimerMapValue [15%Z])
    /\ m_timers t2 !! 1 = Some (mkTimerMapValue [7%Z; 15%Z]).
Proof.
  assert (1 < length (m_timers example_world.1)) as Hlt by (simpl; lia).
  destruct (start_stop_records_sample 30%Z 37%Z
              {| m_time := 10%Z; m_timing := false; m_handle := 1 |}
              example_world.1 eq_refl Hlt)
    as (tm1 & tm2 & t2 & v & Hstart & Hstop & _ & _ & _ & _ & _ & Hv
        & Hsample & _).
  exists tm1, tm2, t2.
  change (m_handle _) with 1 in Hv, Hsample.
  assert (v = mkTimerMapValue [15%Z]) as -> by (vm_compute in Hv; congruence).
  exact (conj Hstart (conj Hstop (conj Hv Hsample))).
Defined.

Lemma Timer_dtor_returns_witness :
  exists t',
    Timer_dtor 37%Z {| m_time := 30%Z; m_timing := true; m_handle := 1 |}
      example_world.1 = Return tt t'
    /\ m_timers t' !! 1 = Some (mkTimerMapValue [7%Z; 15%Z])
    /\ m_timers t' !! 0 = m_timers example_world.1 !! 0
    /\ Timer_dtor 37%Z
         (Timer_discardTiming
            {| m_time := 30%Z; m_timing := true; m_handle := 1 |})
         example_world.1
       = Return tt example_world.1.
Proof.
  assert (1 < length (m_timers example_world.1)) as Hlt by (simpl; lia).
  destruct (Timer_dtor_returns 37%Z
              {| m_time := 30%Z; m_timing := true; m_handle := 1 |}
              example_world.1 Hlt)
    as (t' & v & Hdtor & _ & Hv & Hrun & _ & Hother & _ & Hdiscard).
  exists t'.
  change (m_handle _) with 1 in Hv, Hrun, Hother.
  assert (v = mkTimerMapValue [15%Z]) as -> by (vm_compute in Hv; congruence).
  exact (conj Hdtor (conj (Hrun eq_refl)
           (conj (Hother 0 ltac:(discriminate)) Hdiscard))).
Defined.

Lemma Timer_misuse_throws_witness :
  exists tag,
    m_tagMap example_world.1 !! tag = Some 1
    /\ Timer_stop 40%Z {| m_time := 10%Z; m_timing := false; m_handle := 1 |}
         example_world.1
       = Throw (TimerException_ ("The timer " ++ tag ++ " is not running")).
Proof.
  assert ({| m_time := 10%Z; m_timing := false; m_handle := 1 |}
          ∈ example_world.2) as Hin by left.
  destruct (Timer_misuse_throws example_world _ 40%Z
              example_world_reachable Hin) as (tag & Hl & _ & Hstop).
  exists tag. exact (conj Hl (Hstop eq_refl)).
Defined.

Lemma reset_clears_witness :
  exists t',
    reset 1 example_world.1 = Return tt t'
    /\ m_timers t' !! 1 = Some (mkTimerMapValue [])
    /\ query extract_count 1 t' = Return 0 t'.
Proof.
  assert (1 < length (m_timers example_world.1)) as Hlt by (simpl; lia).
  destruct (reset_clears extract_count 1 example_world.1 Hlt)
    as (t' & Hreset & _ & Hnew & _ & Hquery).
  exists t'. exact (conj Hreset (conj Hnew Hquery)).
Defined.

Lemma print_lists_tags_witness :
  exists ops,
    print example_world.1 = Return ops example_world.1
    /\ row_tags ops ≡ₚ (map_to_list (m_tagMap example_world.1)).*1
    /\ lines ops = 2.
Proof.
  destruct (print_lists_tags example_world example_world_reachable)
    as (ops & Hprint & _ & Hperm & Hlines).
  exists ops. exact (conj Hprint (conj Hperm Hlines)).
Defined.

End TimingMoreFacts.

(* ===================================================================== *)
(** * Facts about [okvis::ceres::ReprojectionError] *)
(* ===================================================================== *)

Module ReprojectionErrorFacts.
Import ReprojectionError.

(** Unfold the arithmetic of the reals to the operations of [R]. *)
Ltac real_arithmetic :=
  cbv [d0 d1 dadd dsub dmul ddiv dsqrt real_arithmetic] in *.


(** C9.  The error term declares two residuals and three parameter blocks,
    of 7 numbers for the camera pose, 4 (one of the two sizes, 3 or 4, a
    landmark may have) for the landmark and 7 for the extrinsics, and
    [parameterBlockDim] reports these sizes; past the last block it
    throws. *)
Theorem declared_dimensions :
  residualDim = 2
  /\ ceres.num_residuals base_t = 2
  /\ parameterBlocks = 3
  /\ ceres.parameter_block_sizes base_t = [7; 4; 7]
  /\ parameterBlockDim 0 = inr 7
  /\ (parameterBlockDim 1 = inr 3 \/ parameterBlockDim 1 = inr 4)
  /\ parameterBlockDim 1 = inr 4
  /\ parameterBlockDim 2 = inr 7
  /\ (forall i, 3 <= i -> parameterBlockDim i = inl out_of_range_).
Proof.
  repeat split; try reflexivity; [by right|].
  intros i Hi. unfold parameterBlockDim.
  by rewrite lookup_ge_None_2 by (simpl; lia).
Qed.

Section Memory.

Context {D : Type} `{!Arithmetic D}.

Implicit Types (h : gmap Z D) (ws : list (Z * D)) (a p : Z) (J : Matrix D).

(** *** Stores *)

Lemma apply_writes_cons w ws h :
  apply_writes (w :: ws) h = apply_writes ws (<[w.1 := w.2]> h).
Proof. done. Qed.

Lemma apply_writes_lookup ws h a :
  apply_writes ws h !! a =
    match last_write ws a with Some v => Some v | None => h !! a end.
Proof.
  revert h. induction ws as [|w ws IH]; intros h; [done|].
  rewrite apply_writes_cons, IH. simpl.
  destruct (last_write ws a); [done|].
  rewrite lookup_insert. by case_decide.
Qed.

Lemma last_write_Some ws a v : last_write ws a = Some v -> (a, v) ∈ ws.
Proof.
  induction ws as [|w ws IH]; [done|]. simpl.
  destruct (last_write ws a) as [v'|].
  - intros [= ->]. right. by apply IH.
  - case_decide as Hd; [|done]. intros [= <-]. subst a. destruct w. left.
Qed.

Lemma last_write_is_Some ws a : a ∈ ws.*1 -> is_Some (last_write ws a).
Proof.
  induction ws as [|w ws IH]; [by intros ?%elem_of_nil|]. simpl.
  intros [Heq|Hin]%elem_of_cons.
  - destruct (last_write ws a); [by eexists|].
    rewrite decide_True by done. by eexists.
  - destruct (IH Hin) as [v ->]. by eexists.
Qed.

(** When every store is of the same value, that value is what every
    address stored to holds. *)
Lemma apply_writes_const ws h a v :
  (forall w, w ∈ ws -> w.2 = v) -> a ∈ ws.*1 ->
  apply_writes ws h !! a = Some v.
Proof.
  intros Hall [v' Hv']%last_write_is_Some.
  rewrite apply_writes_lookup, Hv'.
  apply last_write_Some in Hv'. by rewrite <- (Hall _ Hv').
Qed.

(** *** Where an evaluation stores *)

Lemma store_matrix_addresses p cols J :
  (store_matrix p cols J).*1 = range p (kNumResiduals * cols).
Proof.
  unfold store_matrix, range, kNumResiduals. simpl.
  rewrite app_nil_r, Nat.add_0_r, fmap_app, seq_app, map_app.
  rewrite <- !list_fmap_compose. apply (f_equal2 app).
  - by apply list_fmap_ext.
  - simpl.
    replace (seq cols cols) with (Nat.add cols <$> seq 0 cols)
      by (rewrite fmap_add_seq; f_equal; lia).
    change (map ?f ?l) with (f <$> l). rewrite <- list_fmap_compose.
    apply list_fmap_ext. intros _ j _. done.
Qed.

Lemma store_blocks_addresses ptrs sizes (Js : nat -> Matrix D) :
  (store_blocks ptrs sizes Js).*1 = block_footprint ptrs sizes.
Proof.
  unfold store_blocks, block_footprint.
  induction (requested ptrs sizes) as [|[[i a] n] l IH]; [done|].
  simpl. by rewrite fmap_app, store_matrix_addresses, IH.
Qed.

Lemma writes_addresses (ev : Evaluation D) residuals jacobians jacobiansMinimal :
  (writes ev residuals jacobians jacobiansMinimal).*1
  = footprint residuals jacobians jacobiansMinimal.
Proof.
  unfold writes, footprint.
  rewrite !fmap_app, !store_blocks_addresses. f_equal.
  unfold range. simpl. by rewrite Z.add_0_r.
Qed.

Lemma store_matrix_Zero p cols w :
  w ∈ store_matrix p cols Zero -> w.2 = 0%D.
Proof.
  unfold store_matrix.
  intros (i & _ & Hw)%list_elem_of_In%in_flat_map.
  by apply in_map_iff in Hw as (j & <- & _).
Qed.

Lemma store_blocks_Zero ptrs sizes w :
  w ∈ store_blocks ptrs sizes (fun _ => Zero) -> w.2 = 0%D.
Proof.
  unfold store_blocks.
  intros ([[i a] n] & _ & Hw)%list_elem_of_In%in_flat_map.
  eapply store_matrix_Zero. by apply list_elem_of_In.
Qed.

(** *** The buffers of a call *)

Lemma elem_of_range p n k : (k < n)%nat -> (p + Z.of_nat k)%Z ∈ range p n.
Proof.
  intros Hk. unfold range. apply list_elem_of_In, in_map_iff.
  exists k. split; [done|]. apply in_seq. lia.
Qed.

(** The array behind a pointer that is not null is among the addresses of
    the blocks asked for. *)
Lemma block_footprint_pointer ptrs sizes i p n k :
  pointer ptrs i = Some p -> sizes !! i = Some n ->
  (k < kNumResiduals * n)%nat ->
  (p + Z.of_nat k)%Z ∈ block_footprint ptrs sizes.
Proof.
  intros Hp Hn Hk. pose proof (elem_of_range p _ k Hk) as Hin.
  unfold block_footprint, requested.
  destruct ptrs as [[[j0 j1] j2]|]; [|done].
  destruct i as [|[|[|i]]]; cbn [pointer] in Hp; [subst..|done];
    rewrite !flat_map_app; cbn [flat_map]; rewrite Hn; cbn [default].
  all: rewrite !elem_of_app; auto.
Qed.

Lemma parameterBlockDim_inr i n :
  parameterBlockDim i = inr n ->
  ceres.parameter_block_sizes base_t !! i = Some n.
Proof.
  unfold parameterBlockDim.
  destruct (ceres.parameter_block_sizes base_t !! i); [|done].
  by intros [= ->].
Qed.

End Memory.

Section ErrorTerm.

Context {D : Type} `{!Arithmetic D} {G : Type} `{!CameraGeometry D G}
  `{!ChainRule D}.

Implicit Types (e : ReprojectionError D G) (s t : state D G) (cam : G)
  (parameters : Z * Z * Z) (residuals : Z)
  (jacobians jacobiansMinimal : pointers).

Lemma evaluate_failure e cam T_WS hp_W T_SC :
  (project cam (pointInCameraFrame T_WS hp_W T_SC)).2 = false ->
  evaluate e cam T_WS hp_W T_SC
  = {| residual := (0, 0)%D;
       jacobian := fun _ => Zero;
       jacobianMinimal := fun _ => Zero |}.
Proof.
  unfold evaluate.
  destruct (project cam (pointInCameraFrame T_WS hp_W T_SC)) as [[kp Jp] ok].
  simpl. by intros ->.
Qed.

Lemma EvaluateWithMinimalJacobians_unfold s cam parameters residuals
    jacobians jacobiansMinimal :
  cameraGeometry_ (this s) = Some cam ->
  EvaluateWithMinimalJacobians parameters residuals jacobians
    jacobiansMinimal s
  = Some (true,
          {| this := this s;
             memory :=
               apply_writes
                 (writes (evaluate (this s) cam
                            (load_pose (memory s) parameters.1.1)
                            (load_point (memory s) parameters.1.2)
                            (load_pose (memory s) parameters.2))
                         residuals jacobians jacobiansMinimal)
                 (memory s) |}).
Proof. unfold EvaluateWithMinimalJacobians. by intros ->. Qed.


(** Both entry points, on a projection that fails. *)
Lemma failure_zeroes s cam parameters residuals jacobians jacobiansMinimal :
  cameraGeometry_ (this s) = Some cam ->
  (project cam (cameraFramePoint parameters (memory s))).2 = false ->
  exists s',
    EvaluateWithMinimalJacobians parameters residuals jacobians
      jacobiansMinimal s = Some (true, s')
    /\ forall a, a ∈ footprint residuals jacobians jacobiansMinimal ->
                 memory s' !! a = Some 0%D.
Proof.
  intros Hcam Hfail.
  rewrite (EvaluateWithMinimalJacobians_unfold _ cam) by done.
  eexists. split; [done|]. cbn [memory]. intros a Ha.
  apply apply_writes_const; [|by rewrite writes_addresses].
  rewrite evaluate_failure by exact Hfail.
  unfold writes. cbn [residual jacobian jacobianMinimal fst snd app].
  intros w [->|[->|[Hw|Hw]%elem_of_app]%elem_of_cons]%elem_of_cons;
    [done|done|by eapply store_blocks_Zero..].
Qed.

(** C1.  When the camera reports that the projection of the landmark
    failed, and in particular when the landmark has non-positive depth in
    the camera frame, both [EvaluateWithMinimalJacobians] and [Evaluate]
    return normally, with [true]; afterwards the two numbers of the
    residual buffer are zero, and so is every number of every Jacobian
    array and minimal Jacobian array whose pointer the caller did not
    leave null: the [2 * n] numbers behind [jacobians[i]] for the block
    size [n] that [parameterBlockDim i] reports, and the [2 * n] behind
    [jacobiansMinimal[i]] for the minimal size [n] of block [i]. *)
Theorem projection_failure_zeroes s cam parameters residuals jacobians
    jacobiansMinimal :
  cameraGeometry_ (this s) = Some cam ->
  (project cam (cameraFramePoint parameters (memory s))).2 = false
  \/ (depth (cameraFramePoint parameters (memory s)) <=? 0)%D = true ->
  (exists s',
     EvaluateWithMinimalJacobians parameters residuals jacobians
       jacobiansMinimal s = Some (true, s')
     /\ block_is_zero (memory s') residuals kNumResiduals
     /\ (forall i p n,
          pointer jacobians i = Some p -> parameterBlockDim i = inr n ->
          block_is_zero (memory s') p (kNumResiduals * n))
     /\ (forall i p n,
          pointer jacobiansMinimal i = Some p ->
          minimal_block_sizes !! i = Some n ->
          block_is_zero (memory s') p (kNumResiduals * n)))
  /\ (exists s',
        Evaluate parameters residuals jacobians s = Some (true, s')
        /\ block_is_zero (memory s') residuals kNumResiduals
        /\ (forall i p n,
             pointer jacobians i = Some p -> parameterBlockDim i = inr n ->
             block_is_zero (memory s') p (kNumResiduals * n))).
Proof.
  intros Hcam Hfail.
  assert ((project cam (cameraFramePoint parameters (memory s))).2 = false)
    as Hfalse.
  { destruct Hfail as [Hfail|Hdepth]; [done|]. by apply project_behind. }
  split.
  - destruct (failure_zeroes s cam parameters residuals jacobians
                jacobiansMinimal Hcam Hfalse) as (s' & Hev & Hzero).
    exists s'. split; [done|]. unfold footprint in Hzero.
    split; [|split].
    + intros k Hk. apply Hzero. rewrite elem_of_app. left.
      by apply elem_of_range.
    + intros i p n Hp Hn%parameterBlockDim_inr k Hk. apply Hzero.
      rewrite !elem_of_app. right. left.
      by eapply block_footprint_pointer.
    + intros i p n Hp Hn k Hk. apply Hzero.
      rewrite !elem_of_app. right. right.
      by eapply block_footprint_pointer.
  - unfold Evaluate.
    destruct (failure_zeroes s cam parameters residuals jacobians None
                Hcam Hfalse) as (s' & Hev & Hzero).
    exists s'. split; [done|]. unfold footprint in Hzero.
    split.
    + intros k Hk. apply Hzero. rewrite elem_of_app. left.
      by apply elem_of_range.
    + intros i p n Hp Hn%parameterBlockDim_inr k Hk. apply Hzero.
      rewrite !elem_of_app. right. left.
      by eapply block_footprint_pointer.
Qed.

End ErrorTerm.

(** ** The information matrix, over the reals *)

Section Information.

Context {G : Type} `{!CameraGeometry R G} `{!ChainRule R}.
Local Open Scope R_scope.

Implicit Types (M : Matrix2d R) (e : ReprojectionError R G).







End Information.

(** ** The zero matrix, over the doubles *)






(** ** The weighting of the residual *)


(** ** The theorems at the examples *)

Lemma projection_failure_zeroes_witness :
  cameraGeometry_ (this example_state_behind_homogeneous)
  = Some {| fu := 350; fv := 350; cu := 360; cv := 240 |}%float
  /\ (depth (cameraFramePoint example_parameters
                (memory example_state_behind_homogeneous)) <=? 0)%D = true
  /\ exists s',
       EvaluateWithMinimalJacobians example_parameters 100 example_jacobians
         example_jacobiansMinimal example_state_behind_homogeneous
       = Some (true, s')
       /\ memory s' !! 100%Z = Some 0%float
       /\ memory s' !! 101%Z = Some 0%float
       /\ memory s' !! 200%Z = Some 0%float
       /\ memory s' !! 213%Z = Some 0%float
       /\ memory s' !! 220%Z = Some 0%float
       /\ memory s' !! 227%Z = Some 0%float
       /\ memory s' !! 300%Z = Some 0%float
       /\ memory s' !! 311%Z = Some 0%float.
Proof.
  assert (cameraGeometry_ (this example_state_behind_homogeneous)
          = Some {| fu := 350; fv := 350; cu := 360; cv := 240 |}%float)
    as Hcam by reflexivity.
  assert ((depth (cameraFramePoint example_parameters
                    (memory example_state_behind_homogeneous)) <=? 0)%D
          = true)
    as Hdepth by (vm_compute; reflexivity).
  destruct (projection_failure_zeroes example_state_behind_homogeneous _
              example_parameters 100%Z example_jacobians
              example_jacobiansMinimal Hcam (or_intror Hdepth))
    as [(s' & Hev & Hres & Hjac & Hmin) _].
  refine (conj Hcam (conj Hdepth (ex_intro _ s' (conj Hev _)))).
  assert (forall n k, (k <? n)%nat = true -> (k < n)%nat) as Hlt
    by (intros n k; apply Nat.ltb_lt).
  exact (conj (Hres 0%nat (Hlt 2%nat 0%nat eq_refl))
        (conj (Hres 1%nat (Hlt 2%nat 1%nat eq_refl))
        (conj (Hjac 0%nat 200%Z 7%nat eq_refl eq_refl 0%nat
                 (Hlt 14%nat 0%nat eq_refl))
        (conj (Hjac 0%nat 200%Z 7%nat eq_refl eq_refl 13%nat
                 (Hlt 14%nat 13%nat eq_refl))
        (conj (Hjac 1%nat 220%Z 4%nat eq_refl eq_refl 0%nat
                 (Hlt 8%nat 0%nat eq_refl))
        (conj (Hjac 1%nat 220%Z 4%nat eq_refl eq_refl 7%nat
                 (Hlt 8%nat 7%nat eq_refl))
        (conj (Hmin 0%nat 300%Z 6%nat eq_refl eq_refl 0%nat
                 (Hlt 12%nat 0%nat eq_refl))
              (Hmin 0%nat 300%Z 6%nat eq_refl eq_refl 11%nat
                 (Hlt 12%nat 11%nat eq_refl))))))))).
Defined.







End ReprojectionErrorFacts.
